(** * GBIF taxonomy fetcher: resolution-and-expansion engine

    A shallow embedding of [fetch_plant_taxonomy.py].  The remote GBIF
    service is a parameter of the development; every [requests.get] reads
    the answer the service gives at the current request count and advances
    that count.  [time.sleep] calls are recorded in the event log in units
    of [request_delay].  [logging] calls have no influence on any value the
    program computes and are left out. *)

From Stdlib Require Import ZArith Ascii String List Lia Permutation.
From stdpp Require Import base decidable countable gmap strings list.
Import ListNotations.

Local Open Scope string_scope.
Local Open Scope list_scope.
Local Open Scope nat_scope.

(** ** Global constants *)

Definition RETRY_LIMIT : nat := 5.

(** ** Rank model

    [-in-level] and [-out-level] are restricted by [argparse] to the keys of
    [RANK_ABBREVIATIONS], so every level the engine sees is one of the seven
    rank names; they are an enumeration here, [rank_name] gives the string. *)

Inductive Rank := kingdom | phylum | class | order | family | genus | species.

#[global] Instance Rank_eq_dec : EqDecision Rank.
Proof. solve_decision. Defined.

Definition rank_index (r : Rank) : nat :=
  match r with
  | kingdom => 0 | phylum => 1 | class => 2 | order => 3
  | family => 4 | genus => 5 | species => 6
  end.

Definition taxonomic_ranks : list Rank :=
  [kingdom; phylum; class; order; family; genus; species].

#[global] Program Instance Rank_countable : Countable Rank :=
  {| encode r := Pos.of_succ_nat (rank_index r);
     decode p := taxonomic_ranks !! (Pos.to_nat p - 1) |}.
Next Obligation. by intros []. Qed.

Definition rank_name (r : Rank) : string :=
  match r with
  | kingdom => "kingdom" | phylum => "phylum" | class => "class"
  | order => "order" | family => "family" | genus => "genus"
  | species => "species"
  end.

Definition RANK_ABBREVIATIONS (abbr : string) : option Rank :=
  if String.eqb abbr "k" then Some kingdom
  else if String.eqb abbr "p" then Some phylum
  else if String.eqb abbr "c" then Some class
  else if String.eqb abbr "o" then Some order
  else if String.eqb abbr "f" then Some family
  else if String.eqb abbr "g" then Some genus
  else if String.eqb abbr "s" then Some species
  else None.

(** [str.lower] on strings of ASCII characters, which is what the rank
    names of the program and the rank labels of the service are.  On other
    letters Python's [str.lower] does more than this function; statements
    that depend on the comparison of ranks say that the labels are ASCII. *)
Definition lower_ascii (c : ascii) : ascii :=
  let n := nat_of_ascii c in
  if (65 <=? n) && (n <=? 90) then ascii_of_nat (n + 32) else c.

Fixpoint lower (s : string) : string :=
  match s with
  | EmptyString => EmptyString
  | String c s' => String (lower_ascii c) (lower s')
  end.

(** ** Data model *)

(** The dictionary built by [fetch_taxonomy] and [fill_empty_taxonomy]. *)
Record Taxon := {
  t_key : option Z;
  t_name : string;
  t_kingdom : string;
  t_phylum : string;
  t_class : string;
  t_order : string;
  t_family : string;
  t_genus : string;
  t_species : string;
  t_rank : string
}.

(** [taxonomy.get(level, "N/A")] for a rank name: the key is always there. *)
Definition taxon_get (t : Taxon) (level : Rank) : string :=
  match level with
  | kingdom => t_kingdom t | phylum => t_phylum t | class => t_class t
  | order => t_order t | family => t_family t | genus => t_genus t
  | species => t_species t
  end.

(** The dictionary [fetch_children] builds for one child. *)
Record Child := {
  child_key : option Z;
  child_name : string;
  child_rank : string;
  child_genus : string;
  child_species : string
}.

(** ** The remote service *)

(** JSON body of [/species/match]; an absent key is [None]. *)
Record MatchJson := {
  matchType : option string;
  usageKey : option Z;
  j_kingdom : option string;
  j_phylum : option string;
  j_class : option string;
  j_order : option string;
  j_family : option string;
  j_genus : option string;
  j_species : option string;
  j_rank : option string
}.

(** One element of ["results"] in the body of [/species/{key}/children]. *)
Record ChildJson := {
  c_key : option Z;
  c_scientificName : option string;
  c_rank : option string;
  c_genus : option string;
  c_species : option string
}.

(** What [requests.get] followed by [raise_for_status] and [json] gives:
    a body, or one of the three exception classes the code catches. *)
Inductive Response (A : Type) :=
  | Ok (body : A)
  | HTTPError (status_code : Z)
  | Timeout
  | RequestException.
Arguments Ok {A} body.
Arguments HTTPError {A} status_code.
Arguments Timeout {A}.
Arguments RequestException {A}.

(** The service answers the [n]-th request of the run. *)
Record Service := {
  match_api : nat -> string -> Response MatchJson;
  children_api : nat -> option Z -> nat -> nat -> Response (list ChildJson)
}.

Inductive Event :=
  | GetMatch (name : string)
  | GetChildren (parent_key : option Z) (limit offset : nat)
  | Sleep (delays : nat).

Record World := { clock : nat; log : list Event }.

Definition sleep (delays : nat) (w : World) : World :=
  {| clock := clock w; log := log w ++ [Sleep delays] |}.

Definition is_failure {A} (r : Response A) : bool :=
  match r with Ok _ => false | _ => true end.

(** ** Conflict validator *)

(** [sys.exit(code)] or a normal return. *)
Inductive Exit (A : Type) :=
  | SysExit (code : Z)
  | Return (a : A).
Arguments SysExit {A} code%_Z.
Arguments Return {A} a.

(** [list.remove(x)]: drops the first occurrence. *)
Fixpoint list_remove (x : Rank) (l : list Rank) : list Rank :=
  match l with
  | [] => []
  | y :: l' => if decide (x = y) then l' else y :: list_remove x l'
  end.

(** Returns the list [levels] holds after the call. *)
Definition check_conflict (input_level : Rank) (levels : list Rank)
  : Exit (list Rank) :=
  if bool_decide (input_level ∈ levels) then
    if length levels =? 1 then SysExit 1
    else Return (list_remove input_level levels)
  else Return levels.

(** ** Output rows *)

Inductive OutputFormat := csv | json | txt.

(** One [outfile.write].  A delimited line is the string written; in the
    [json] format the line is [json.dumps(data)] and the dictionary it
    serialises is kept instead. *)
Inductive Written :=
  | TextLine (line : string)
  | JsonLine (data : gmap Rank string).

Definition newline : string := String "010" EmptyString.
Definition tab : string := String "009" EmptyString.

Definition upper_ascii (c : ascii) : ascii :=
  let n := nat_of_ascii c in
  if (97 <=? n) && (n <=? 122) then ascii_of_nat (n - 32) else c.

(** [str.capitalize] *)
Definition capitalize (s : string) : string :=
  match s with
  | EmptyString => EmptyString
  | String c s' => String (upper_ascii c) (lower s')
  end.

(** [[data.get(level, "") for level in [input_level] + levels]] *)
Definition row_of (input_level : Rank) (levels : list Rank)
    (data : gmap Rank string) : list string :=
  map (fun level => default "" (data !! level)) ([input_level] ++ levels).

Definition write_row (output_format : OutputFormat) (input_level : Rank)
    (levels : list Rank) (data : gmap Rank string) : Written :=
  let row := row_of input_level levels data in
  match output_format with
  | csv => TextLine (String.concat "," row +:+ newline)
  | json => JsonLine data
  | txt => TextLine (String.concat tab row +:+ newline)
  end.

(** ** Run state *)

Record RunState := {
  success_count : nat;
  failure_count : nat;
  outfile : list Written
}.

Section Engine.

Variable svc : Service.

Definition get_match (name : string) (w : World) : Response MatchJson * World :=
  (match_api svc (clock w) name,
   {| clock := S (clock w); log := log w ++ [GetMatch name] |}).

Definition get_children (parent_key : option Z) (limit offset : nat) (w : World)
  : Response (list ChildJson) * World :=
  (children_api svc (clock w) parent_key limit offset,
   {| clock := S (clock w); log := log w ++ [GetChildren parent_key limit offset] |}).

(** ** Lineage resolver *)

Definition fill_empty_taxonomy (plant_name : string) : Taxon :=
  {| t_key := None; t_name := plant_name;
     t_kingdom := "N/A"; t_phylum := "N/A"; t_class := "N/A";
     t_order := "N/A"; t_family := "N/A"; t_genus := "N/A";
     t_species := "N/A"; t_rank := "N/A" |}.

Definition taxon_of_match (plant_name : string) (data : MatchJson) : Taxon :=
  {| t_key := usageKey data; t_name := plant_name;
     t_kingdom := default "N/A" (j_kingdom data);
     t_phylum := default "N/A" (j_phylum data);
     t_class := default "N/A" (j_class data);
     t_order := default "N/A" (j_order data);
     t_family := default "N/A" (j_family data);
     t_genus := default "N/A" (j_genus data);
     t_species := default "N/A" (j_species data);
     t_rank := default "N/A" (j_rank data) |}.

(** [data.get("matchType") != "NONE"] *)
Definition match_found (data : MatchJson) : bool :=
  match matchType data with
  | Some s => negb (String.eqb s "NONE")
  | None => true
  end.

(** The [while attempt < RETRY_LIMIT] loop.  Every iteration that does not
    return adds one to [attempt], so the loop is written by recursion on
    [remaining = RETRY_LIMIT - attempt]. *)
Fixpoint fetch_taxonomy_loop (remaining attempt : nat) (plant_name : string)
    (w : World) : Taxon * World :=
  match remaining with
  | 0 => (fill_empty_taxonomy plant_name, w)
  | S remaining' =>
      let '(resp, w1) := get_match plant_name w in
      match resp with
      | Ok data =>
          if match_found data then (taxon_of_match plant_name data, w1)
          else (fill_empty_taxonomy plant_name, w1)
      | HTTPError status_code =>
          let w2 := if (status_code =? 429)%Z then sleep (attempt + 1) w1 else w1 in
          fetch_taxonomy_loop remaining' (attempt + 1) plant_name (sleep 1 w2)
      | Timeout | RequestException =>
          fetch_taxonomy_loop remaining' (attempt + 1) plant_name (sleep 1 w1)
      end
  end.

Definition fetch_taxonomy (plant_name : string) (w : World) : Taxon * World :=
  fetch_taxonomy_loop RETRY_LIMIT 0 plant_name w.

(** ** Children enumeration *)

(** The local [limit = 1000] of [fetch_children]. *)
Definition limit : nat := 1000.

Definition child_of_json (child : ChildJson) : Child :=
  {| child_key := c_key child;
     child_name := default "N/A" (c_scientificName child);
     child_rank := default "N/A" (c_rank child);
     child_genus := default "N/A" (c_genus child);
     child_species := default "N/A" (c_species child) |}.

(** [child.get("rank", "").lower() == rank.lower()] *)
Definition rank_matches (rank : string) (child : ChildJson) : bool :=
  String.eqb (lower (default "" (c_rank child))) (lower rank).

Definition page_results (rank : string) (page : list ChildJson) : list Child :=
  map child_of_json (List.filter (rank_matches rank) page).

(** The three variables the [while True] loop updates. *)
Record LoopVars := { offset : nat; attempt : nat; results : list Child }.

Inductive Flow := Break | FallThrough.

(** The [try] statement with its handlers: one request. *)
Definition fetch_children_try (parent_key : option Z) (rank : string)
    (v : LoopVars) (w : World) : Flow * LoopVars * World :=
  let '(resp, w1) := get_children parent_key limit (offset v) w in
  match resp with
  | Ok page =>
      let results' := results v ++ page_results rank page in
      if length page <? limit
      then (Break, {| offset := offset v; attempt := attempt v; results := results' |}, w1)
      else (FallThrough,
            {| offset := offset v + limit; attempt := attempt v; results := results' |},
            sleep 1 w1)
  | HTTPError status_code =>
      let w2 := if (status_code =? 429)%Z then sleep (attempt v + 1) w1 else w1 in
      (FallThrough,
       {| offset := offset v; attempt := attempt v + 1; results := results v |}, w2)
  | Timeout | RequestException =>
      (FallThrough,
       {| offset := offset v; attempt := attempt v + 1; results := results v |}, w1)
  end.

(** The loop has no bound of its own: a service that keeps sending full
    pages keeps it running.  [fuel] bounds the number of requests; [None]
    stands for a run that has not returned within that bound. *)
Fixpoint fetch_children_loop (fuel : nat) (parent_key : option Z) (rank : string)
    (v : LoopVars) (w : World) : option (list Child * World) :=
  match fuel with
  | 0 => None
  | S fuel' =>
      match fetch_children_try parent_key rank v w with
      | (Break, v', w') => Some (results v', w')
      | (FallThrough, v', w') =>
          if RETRY_LIMIT <=? attempt v' then Some (results v', w')
          else fetch_children_loop fuel' parent_key rank v' (sleep 1 w')
      end
  end.

Definition fetch_children (fuel : nat) (parent_key : option Z) (rank : string)
    (w : World) : option (list Child * World) :=
  fetch_children_loop fuel parent_key rank
    {| offset := 0; attempt := 0; results := [] |} w.

(** ** Descendant expander *)

(** A [for] loop whose body may fail to return. *)
Fixpoint for_each {A S : Type} (body : A -> S -> option S) (l : list A) (s : S)
  : option S :=
  match l with
  | [] => Some s
  | x :: l' =>
      match body x s with
      | None => None
      | Some s' => for_each body l' s'
      end
  end.

(** [fetch_lower_levels] reads only ["key"] of [current_taxonomy], which is
    the resolved taxon at first and a child dictionary below; the key is
    passed.  [results] is the list the closure appends to.  The recursion
    goes down one rank per call; [gas] is the number of calls left and is
    started at the number of ranks. *)
Fixpoint fetch_lower_levels (gas fuel : nat) (lower_levels : list Rank)
    (current_key : option Z) (current_data : gmap Rank string)
    (current_rank_index : nat) (results : list (gmap Rank string)) (w : World)
    : option (list (gmap Rank string) * World) :=
  if length taxonomic_ranks - 1 <=? current_rank_index
  then Some (results ++ [current_data], w)
  else
    match gas with
    | 0 => None
    | S gas' =>
        let next_rank_index := current_rank_index + 1 in
        match taxonomic_ranks !! next_rank_index with
        | None => None
        | Some next_rank =>
            if bool_decide (next_rank ∈ lower_levels) then
              match fetch_children fuel current_key (rank_name next_rank) w with
              | None => None
              | Some ([], w1) => Some (results ++ [current_data], w1)
              | Some (children, w1) =>
                  for_each
                    (fun child '(results, w) =>
                       let child_data := <[next_rank := child_name child]> current_data in
                       fetch_lower_levels gas' fuel lower_levels (child_key child)
                         child_data next_rank_index results w)
                    children (results, w1)
              end
            else
              fetch_lower_levels gas' fuel lower_levels current_key current_data
                next_rank_index results w
        end
    end.

(** ** One name *)

Definition process_plant (fuel : nat) (plant_name : string) (input_level : Rank)
    (levels : list Rank) (w : World)
    : option (list (gmap Rank string) * bool * World) :=
  let '(taxonomy, w1) := fetch_taxonomy plant_name w in
  match t_key taxonomy with
  | None =>
      let data := foldl (fun d level => <[level := ""]> d) ∅ levels in
      let data := <[input_level := plant_name]> data in
      Some ([data], false, w1)
  | Some _ =>
      let input_rank_index := rank_index input_level in
      let data : gmap Rank string := {[input_level := plant_name]} in
      let lower_levels :=
        List.filter (fun level => input_rank_index <? rank_index level) levels in
      let higher_levels :=
        List.filter (fun level => rank_index level <=? input_rank_index) levels in
      let data :=
        foldl (fun d level => <[level := taxon_get taxonomy level]> d) data higher_levels in
      match lower_levels with
      | _ :: _ =>
          match fetch_lower_levels (length taxonomic_ranks) fuel lower_levels
                  (t_key taxonomy) data input_rank_index [] w1 with
          | None => None
          | Some (results, w2) => Some (results, true, w2)
          end
      | [] => Some ([data], true, w1)
      end
  end.

End Engine.

(** ** Pipeline *)

Section Pipeline.

Variable svc : Service.
Variable fuel : nat.
Variable input_level : Rank.
Variable levels : list Rank.
Variable output_format : OutputFormat.

(** The body of [with lock:] in [process_and_write]. *)
Definition locked_section (task : list (gmap Rank string) * bool) (st : RunState)
  : RunState :=
  let '(results, success) := task in
  {| success_count := if success then success_count st + 1 else success_count st;
     failure_count := if success then failure_count st else failure_count st + 1;
     outfile := outfile st ++ map (write_row output_format input_level levels) results |}.

Definition process_and_write (plant_name : string) (s : World * RunState)
  : option (World * RunState) :=
  let '(w, st) := s in
  match process_plant svc fuel plant_name input_level levels w with
  | None => None
  | Some (results, success, w') => Some (w', locked_section (results, success) st)
  end.

(** The [else] branch of [if parallel]. *)
Definition run_sequential (plant_names : list string) (s : World * RunState)
  : option (World * RunState) :=
  for_each
    (fun plant_name s =>
       match process_and_write plant_name s with
       | None => None
       | Some (w', st') => Some (sleep 1 w', st')
       end)
    plant_names s.

(** The worker pool.  Tasks are taken from the queue in submission order
    while a worker is free; a worker first runs [process_plant] and then
    enters the locked section.  The lock makes the locked sections of
    different workers follow one another in some order, which is the order
    in which [pool_commit] steps are taken.  The requests of one
    [process_plant] call are kept together; for a service whose answers do
    not depend on the request count this loses no behaviour. *)
Record Pool := {
  queue : list string;
  in_flight : list (list (gmap Rank string) * bool);
  net : World;
  shared : RunState
}.

Inductive pool_step (max_workers : nat) : Pool -> Pool -> Prop :=
  | pool_start plant_name queue' tasks w st results success w' :
      length tasks < max_workers ->
      process_plant svc fuel plant_name input_level levels w
        = Some (results, success, w') ->
      pool_step max_workers
        {| queue := plant_name :: queue'; in_flight := tasks; net := w; shared := st |}
        {| queue := queue'; in_flight := tasks ++ [(results, success)];
           net := w'; shared := st |}
  | pool_commit queue tasks1 task tasks2 w st :
      pool_step max_workers
        {| queue := queue; in_flight := tasks1 ++ task :: tasks2; net := w; shared := st |}
        {| queue := queue; in_flight := tasks1 ++ tasks2; net := w;
           shared := locked_section task st |}.

Definition pool_done (p : Pool) : Prop := queue p = [] /\ in_flight p = [].

End Pipeline.

(** [min(10, os.cpu_count() or 1)] *)
Definition max_workers (cpu_count : option nat) : nat :=
  Nat.min 10 (match cpu_count with
              | Some 0 | None => 1
              | Some n => n
              end).

(** ** The files and the command line *)

(** The input file: unreadable, or the stripped non-blank lines that the
    comprehension builds from it. *)
Inductive InputFile := Unreadable | Lines (plant_names : list string).

Inductive OutputFile := Unwritable | Missing | Present (content : list Written).

Record Env := {
  input_file : InputFile;
  output_file : OutputFile;
  cpu_count : option nat
}.

Definition headers (input_level : Rank) (levels : list Rank) : list string :=
  [capitalize (rank_name input_level)]
  ++ map (fun level => capitalize (rank_name level)) levels.

(** The "Prepare output file" block: the content of the file afterwards. *)
Definition prepare_output (output_file : OutputFile) (output_format : OutputFormat)
    (input_level : Rank) (levels : list Rank) : Exit (list Written) :=
  match output_file with
  | Unwritable => SysExit 1
  | Present content => Return content
  | Missing =>
      match output_format with
      | csv => Return [TextLine (String.concat "," (headers input_level levels) +:+ newline)]
      | json => Return []
      | txt => Return [TextLine (String.concat tab (headers input_level levels) +:+ newline)]
      end
  end.

(** How a run ends: [sys.exit], the counts of the summary line, or the
    [pass] of the [-retry] branch; with it the network history and the
    output file the run leaves. *)
Inductive Status :=
  | Exited (code : Z)
  | Completed (success failure : nat)
  | NothingDone.

Record Final := {
  status : Status;
  net_after : World;
  file_after : OutputFile
}.

Inductive process_plant_file (svc : Service) (fuel : nat) (env : Env)
    (input_level : Rank) (levels : list Rank) (parallel : bool)
    (output_format : OutputFormat) (w : World) : Final -> Prop :=
  | ppf_input_error :
      input_file env = Unreadable ->
      process_plant_file svc fuel env input_level levels parallel output_format w
        {| status := Exited 1; net_after := w; file_after := output_file env |}
  | ppf_output_error plant_names code :
      input_file env = Lines plant_names ->
      prepare_output (output_file env) output_format input_level levels = SysExit code ->
      process_plant_file svc fuel env input_level levels parallel output_format w
        {| status := Exited code; net_after := w; file_after := output_file env |}
  | ppf_sequential plant_names content w' st' :
      input_file env = Lines plant_names ->
      prepare_output (output_file env) output_format input_level levels = Return content ->
      parallel = false ->
      run_sequential svc fuel input_level levels output_format plant_names
        (w, {| success_count := 0; failure_count := 0; outfile := content |})
        = Some (w', st') ->
      process_plant_file svc fuel env input_level levels parallel output_format w
        {| status := Completed (success_count st') (failure_count st');
           net_after := w'; file_after := Present (outfile st') |}
  | ppf_pooled plant_names content p :
      input_file env = Lines plant_names ->
      prepare_output (output_file env) output_format input_level levels = Return content ->
      parallel = true ->
      rtc (pool_step svc fuel input_level levels output_format
             (max_workers (cpu_count env)))
        {| queue := plant_names; in_flight := []; net := w;
           shared := {| success_count := 0; failure_count := 0; outfile := content |} |}
        p ->
      pool_done p ->
      process_plant_file svc fuel env input_level levels parallel output_format w
        {| status := Completed (success_count (shared p)) (failure_count (shared p));
           net_after := net p; file_after := Present (outfile (shared p)) |}.

(** The namespace [parser.parse_args()] returns; [-delay] and [-log-level]
    do not reach any value modelled here. *)
Record Args := {
  arg_retry : bool;
  arg_in_level : option string;
  arg_out_level : option (list string);
  arg_parallel : bool;
  arg_output_format : OutputFormat
}.

(** [[RANK_ABBREVIATIONS[l] for l in args.out_level]]; [None] for an
    abbreviation outside the table, which [choices] rules out. *)
Fixpoint lookup_levels (abbrs : list string) : option (list Rank) :=
  match abbrs with
  | [] => Some []
  | a :: abbrs' =>
      match RANK_ABBREVIATIONS a, lookup_levels abbrs' with
      | Some r, Some rs => Some (r :: rs)
      | _, _ => None
      end
  end.

(** [choices=list(RANK_ABBREVIATIONS.keys())] *)
Definition in_choices (abbr : string) : bool :=
  match RANK_ABBREVIATIONS abbr with Some _ => true | None => false end.

(** [parser.parse_args()] exits with status 2 on a value outside [choices]. *)
Definition parse_args_ok (args : Args) : bool :=
  match arg_in_level args with Some a => in_choices a | None => true end
  && match arg_out_level args with Some abbrs => forallb in_choices abbrs | None => true end.

(** [main] up to its last statement: the exit it takes, or the input level
    and the validated output levels it goes on with. *)
Definition main_config (args : Args) : Exit (Rank * list Rank) :=
  if negb (parse_args_ok args) then SysExit 2
  else
    match arg_in_level args with
    | None => SysExit 1
    | Some a =>
        match RANK_ABBREVIATIONS a with
        | None => SysExit 2
        | Some input_level =>
            match arg_out_level args with
            | None | Some [] => SysExit 1
            | Some abbrs =>
                match lookup_levels abbrs with
                | None => SysExit 2
                | Some levels =>
                    match check_conflict input_level levels with
                    | SysExit code => SysExit code
                    | Return levels' => Return (input_level, levels')
                    end
                end
            end
        end
    end.

Inductive main (svc : Service) (fuel : nat) (env : Env) (args : Args) (w : World)
  : Final -> Prop :=
  | main_exit code :
      main_config args = SysExit code ->
      main svc fuel env args w
        {| status := Exited code; net_after := w; file_after := output_file env |}
  | main_retry input_level levels :
      main_config args = Return (input_level, levels) ->
      arg_retry args = true ->
      main svc fuel env args w
        {| status := NothingDone; net_after := w; file_after := output_file env |}
  | main_process input_level levels final :
      main_config args = Return (input_level, levels) ->
      arg_retry args = false ->
      process_plant_file svc fuel env input_level levels (arg_parallel args)
        (arg_output_format args) w final ->
      main svc fuel env args w final.

(** ** Vocabulary for the statements about pagination *)

(** A body with fewer than [limit] results. *)
Definition is_short_page (r : Response (list ChildJson)) : bool :=
  match r with
  | Ok page => length page <? limit
  | _ => false
  end.

Definition failures {A} (rs : list (Response A)) : nat :=
  length (List.filter is_failure rs).

(** The bodies among a sequence of answers, in order. *)
Fixpoint bodies {A} (rs : list (Response A)) : list A :=
  match rs with
  | [] => []
  | Ok body :: rs' => body :: bodies rs'
  | _ :: rs' => bodies rs'
  end.

(** The offset of the request that follows an answer: one page further
    after a body, the same again after a failure. *)
Definition next_offset {A} (offset : nat) (r : Response A) : nat :=
  match r with
  | Ok _ => offset + limit
  | _ => offset
  end.

Fixpoint page_offsets {A} (offset : nat) (rs : list (Response A)) : list nat :=
  match rs with
  | [] => []
  | r :: rs' => offset :: page_offsets (next_offset offset r) rs'
  end.

(** From request number [n] on, the service gives the answers [rs], one
    after the other, to the children requests for [parent_key] at the
    offsets [page_offsets offset rs]. *)
Fixpoint answers (svc : Service) (parent_key : option Z) (n offset : nat)
    (rs : list (Response (list ChildJson))) : Prop :=
  match rs with
  | [] => True
  | r :: rs' =>
      children_api svc n parent_key limit offset = r
      /\ answers svc parent_key (S n) (next_offset offset r) rs'
  end.

(** The offsets of the children requests in a history. *)
Definition requested_offsets (events : list Event) : list nat :=
  flat_map (fun e => match e with
                     | GetChildren _ _ offset => [offset]
                     | _ => []
                     end) events.

(** ** Vocabulary for the statements about the two execution modes *)

(** A service with fixed answers: they do not depend on the request count. *)
Definition stateless (svc : Service) : Prop :=
  (forall n m name, match_api svc n name = match_api svc m name)
  /\ (forall n m parent_key lim off,
         children_api svc n parent_key lim off = children_api svc m parent_key lim off).

(** [process_plant] can return [task] for [plant_name]. *)
Definition performs (svc : Service) (fuel : nat) (input_level : Rank)
    (levels : list Rank) (plant_name : string)
    (task : list (gmap Rank string) * bool) : Prop :=
  exists w w', process_plant svc fuel plant_name input_level levels w = Some (task, w').

(** The locked sections of a list of tasks, one after the other. *)
Definition commit_all (input_level : Rank) (levels : list Rank)
    (output_format : OutputFormat)
    (tasks : list (list (gmap Rank string) * bool)) (st : RunState) : RunState :=
  foldl (fun st task => locked_section input_level levels output_format task st) st tasks.

(** Two output files with the same lines up to their order. *)
Definition same_rows (f1 f2 : OutputFile) : Prop :=
  match f1, f2 with
  | Present content1, Present content2 => Permutation content1 content2
  | _, _ => f1 = f2
  end.

(** What holds of every state the pool goes through: the names split
    into those committed, those in flight and those still queued. *)
Definition pool_inv (svc : Service) (fuel : nat) (input_level : Rank)
    (levels : list Rank) (output_format : OutputFormat)
    (plant_names : list string) (st0 : RunState) (p : Pool) : Prop :=
  exists done_names done_tasks flight_names,
    Permutation plant_names (done_names ++ flight_names ++ queue p)
    /\ Forall2 (performs svc fuel input_level levels) done_names done_tasks
    /\ Forall2 (performs svc fuel input_level levels) flight_names (in_flight p)
    /\ shared p = commit_all input_level levels output_format done_tasks st0.

(** ** Services and runs used in the examples *)

Definition w0 : World := {| clock := 0; log := [] |}.

Definition st0 : RunState :=
  {| success_count := 0; failure_count := 0; outfile := [] |}.

(** A service that never answers. *)
Definition svc_timeout : Service :=
  {| match_api := fun _ _ => Timeout; children_api := fun _ _ _ _ => Timeout |}.

Definition genus_json (key : Z) (name : string) : ChildJson :=
  {| c_key := Some key; c_scientificName := Some name; c_rank := Some "GENUS";
     c_genus := Some name; c_species := None |}.

Definition full_page : list ChildJson := repeat (genus_json 7 "Rosa L.") limit.

(** A full page, then a time-out, then a last page of one genus. *)
Definition svc_two_pages : Service :=
  {| match_api := fun _ _ => Timeout;
     children_api := fun n _ _ offset =>
       if n =? 1 then Timeout
       else if offset =? 0 then Ok full_page
       else Ok [genus_json 8 "Rubus L."] |}.

(** A full page, and time-outs from then on. *)
Definition svc_page_then_timeouts : Service :=
  {| match_api := fun _ _ => Timeout;
     children_api := fun n _ _ _ => if n =? 0 then Ok full_page else Timeout |}.

Definition family_json (key : Z) (name : string) : MatchJson :=
  {| matchType := Some "EXACT"; usageKey := Some key;
     j_kingdom := Some "Plantae"; j_phylum := Some "Tracheophyta";
     j_class := None; j_order := None; j_family := Some name;
     j_genus := None; j_species := None; j_rank := Some "FAMILY" |}.

Definition no_match_json : MatchJson :=
  {| matchType := Some "NONE"; usageKey := None;
     j_kingdom := None; j_phylum := None; j_class := None; j_order := None;
     j_family := None; j_genus := None; j_species := None; j_rank := None |}.

(** A service with fixed answers.  It knows two families: "Rosaceae",
    key 1, also matched in lower case, with two genera and one child of
    another rank, and "Pinaceae", key 2, with no children listed; every
    other name is not matched. *)
Definition svc_demo : Service :=
  {| match_api := fun _ name =>
       if String.eqb name "Rosaceae" || String.eqb name "rosaceae"
       then Ok (family_json 1 "Rosaceae")
       else if String.eqb name "Pinaceae" then Ok (family_json 2 "Pinaceae")
       else Ok no_match_json;
     children_api := fun _ parent_key _ _ =>
       match parent_key with
       | Some 1%Z =>
           Ok [genus_json 7 "Rosa L.";
               {| c_key := Some 9%Z; c_scientificName := Some "Rosoideae";
                  c_rank := Some "SUBFAMILY"; c_genus := None; c_species := None |};
               genus_json 8 "Rubus L."]
       | _ => Ok []
       end |}.

Definition demo_env : Env :=
  {| input_file := Lines ["Rosaceae"; "Nonexistia"];
     output_file := Missing;
     cpu_count := Some 4 |}.

(** The run of [svc_demo] over [demo_env] from family to genus, in the
    [txt] format: the two tasks, and where the two modes end. *)
Definition demo_task_rosaceae : list (gmap Rank string) * bool :=
  ([<[genus := "Rosa L."]> {[family := "Rosaceae"]};
    <[genus := "Rubus L."]> {[family := "Rosaceae"]}], true).

Definition demo_task_nonexistia : list (gmap Rank string) * bool :=
  ([<[family := "Nonexistia"]> (<[genus := ""]> ∅)], false).

Definition demo_header : list Written :=
  [TextLine (String.concat tab ["Family"; "Genus"] +:+ newline)].

Definition demo_start : RunState :=
  {| success_count := 0; failure_count := 0; outfile := demo_header |}.

Definition demo_final_seq : Final :=
  {| status := Completed 1 1;
     net_after := {| clock := 3;
                     log := [GetMatch "Rosaceae"; GetChildren (Some 1%Z) limit 0; Sleep 1;
                             GetMatch "Nonexistia"; Sleep 1] |};
     file_after :=
       Present (demo_header
                ++ [TextLine (String.concat tab ["Rosaceae"; "Rosa L."] +:+ newline);
                    TextLine (String.concat tab ["Rosaceae"; "Rubus L."] +:+ newline);
                    TextLine (String.concat tab ["Nonexistia"; ""] +:+ newline)]) |}.

(** Both workers have sent their requests; "Nonexistia" takes the lock
    first. *)
Definition demo_pool_1 : Pool :=
  {| queue := ["Nonexistia"]; in_flight := [demo_task_rosaceae];
     net := {| clock := 2;
               log := [GetMatch "Rosaceae"; GetChildren (Some 1%Z) limit 0] |};
     shared := demo_start |}.

Definition demo_pool_2 : Pool :=
  {| queue := []; in_flight := [demo_task_rosaceae; demo_task_nonexistia];
     net := {| clock := 3;
               log := [GetMatch "Rosaceae"; GetChildren (Some 1%Z) limit 0;
                       GetMatch "Nonexistia"] |};
     shared := demo_start |}.

Definition demo_pool_3 : Pool :=
  {| queue := []; in_flight := [demo_task_rosaceae];
     net := net demo_pool_2;
     shared := locked_section family [genus] txt demo_task_nonexistia demo_start |}.

Definition demo_pool_4 : Pool :=
  {| queue := []; in_flight := [];
     net := net demo_pool_2;
     shared := locked_section family [genus] txt demo_task_rosaceae
                 (shared demo_pool_3) |}.

Definition demo_final_pool : Final :=
  {| status := Completed 1 1;
     net_after := net demo_pool_2;
     file_after :=
       Present (demo_header
                ++ [TextLine (String.concat tab ["Nonexistia"; ""] +:+ newline);
                    TextLine (String.concat tab ["Rosaceae"; "Rosa L."] +:+ newline);
                    TextLine (String.concat tab ["Rosaceae"; "Rubus L."] +:+ newline)]) |}.

Definition demo_args : Args :=
  {| arg_retry := false; arg_in_level := Some "f"; arg_out_level := Some ["f"; "g"];
     arg_parallel := false; arg_output_format := txt |}.

Definition demo_args_sole : Args :=
  {| arg_retry := false; arg_in_level := Some "f"; arg_out_level := Some ["f"];
     arg_parallel := false; arg_output_format := txt |}.

(** ** Vocabulary for the further properties *)

(** The pauses of a history, in units of [request_delay]. *)
Definition slept (events : list Event) : nat :=
  list_sum (map (fun e => match e with Sleep delays => delays | _ => 0 end) events).

(** The events a name resolution may add to the history. *)
Definition match_event (name : string) (e : Event) : Prop :=
  e = GetMatch name \/ exists delays, e = Sleep delays.

(** A string of ASCII characters only. *)
Definition is_ascii (s : string) : bool :=
  forallb (fun c => nat_of_ascii c <? 128) (list_ascii_of_string s).

(** The first letter of a rank name. *)
Definition abbreviation (r : Rank) : string :=
  match rank_name r with
  | String c _ => String c EmptyString
  | EmptyString => EmptyString
  end.

Definition occurrences (x : Rank) (l : list Rank) : nat :=
  length (List.filter (fun y => bool_decide (y = x)) l).

(** The row a resolved name starts from: the queried name at the input
    rank, then the lineage values at the requested ranks that are not below
    it. *)
Definition seed_row (taxonomy : Taxon) (plant_name : string) (input_level : Rank)
    (levels : list Rank) : gmap Rank string :=
  foldl (fun d level => <[level := taxon_get taxonomy level]> d)
    {[input_level := plant_name]}
    (List.filter (fun level => rank_index level <=? rank_index input_level) levels).

(** The lines a list of tasks adds to the output, task after task. *)
Definition lines_of (input_level : Rank) (levels : list Rank)
    (output_format : OutputFormat)
    (tasks : list (list (gmap Rank string) * bool)) : list Written :=
  flat_map (fun t => map (write_row output_format input_level levels) (fst t)) tasks.

(** Two failed requests, then a match. *)
Definition svc_flaky : Service :=
  {| match_api := fun n _ =>
       if n =? 0 then Timeout
       else if n =? 1 then HTTPError 429
       else Ok (family_json 1 "Rosaceae");
     children_api := fun _ _ _ _ => Ok [] |}.

(** A match whose body has no [usageKey]. *)
Definition keyless_json : MatchJson :=
  {| matchType := Some "FUZZY"; usageKey := None;
     j_kingdom := Some "Plantae"; j_phylum := None; j_class := None; j_order := None;
     j_family := Some "Rosaceae"; j_genus := None; j_species := None;
     j_rank := Some "FAMILY" |}.

Definition svc_keyless : Service :=
  {| match_api := fun _ _ => Ok keyless_json;
     children_api := fun _ _ _ _ => Ok [] |}.

(** A service that is always over its rate limit. *)
Definition svc_rate_limited : Service :=
  {| match_api := fun _ _ => HTTPError 429;
     children_api := fun _ _ _ _ => HTTPError 429 |}.

(** A children listing that never ends: every page is full. *)
Definition svc_endless : Service :=
  {| match_api := fun _ _ => Ok (family_json 1 "Rosaceae");
     children_api := fun _ _ _ _ => Ok full_page |}.

(** Two full pages and a last page of one genus. *)
Definition svc_three_pages : Service :=
  {| match_api := fun _ _ => Timeout;
     children_api := fun _ _ _ offset =>
       if offset <? 2 * limit then Ok full_page
       else Ok [genus_json 8 "Rubus L."] |}.

Definition demo_args_retry : Args :=
  {| arg_retry := true; arg_in_level := Some "f"; arg_out_level := Some ["g"; "s"];
     arg_parallel := true; arg_output_format := csv |}.

(** * Properties *)

(** ** Worlds *)

Lemma clock_sleep delays w : clock (sleep delays w) = clock w.
Proof. reflexivity. Qed.

Lemma rank_index_lookup r : taxonomic_ranks !! rank_index r = Some r.
Proof. by destruct r. Qed.

(** ** Lineage resolver *)

Section ResolverFacts.

Variable svc : Service.

Lemma fill_empty_taxonomy_get plant_name level :
  taxon_get (fill_empty_taxonomy plant_name) level = "N/A".
Proof. by destruct level. Qed.

Lemma match_found_none data :
  matchType data = Some "NONE" -> match_found data = false.
Proof. unfold match_found. by intros ->. Qed.

Lemma fetch_taxonomy_loop_no_match plant_name w data remaining attempt :
  match_api svc (clock w) plant_name = Ok data ->
  matchType data = Some "NONE" ->
  fetch_taxonomy_loop svc (S remaining) attempt plant_name w
  = (fill_empty_taxonomy plant_name,
     {| clock := S (clock w); log := log w ++ [GetMatch plant_name] |}).
Proof.
  intros Hresp Hnone. cbn [fetch_taxonomy_loop get_match].
  rewrite Hresp, (match_found_none _ Hnone). reflexivity.
Qed.

(** C9.  When the answer to a name-match request is a body whose
    [matchType] is ["NONE"], the loop returns the empty taxon at once,
    whatever the attempt it is in: the only event added to the history is
    that one request, no pause and no further request follows.  The empty
    taxon has no key and ["N/A"] in every rank field. *)
Theorem fetch_taxonomy_no_match_returns_at_once
    (plant_name : string) (w : World) (data : MatchJson) :
  match_api svc (clock w) plant_name = Ok data ->
  matchType data = Some "NONE" ->
  let w1 := {| clock := S (clock w); log := log w ++ [GetMatch plant_name] |} in
  (forall remaining attempt,
      fetch_taxonomy_loop svc (S remaining) attempt plant_name w
      = (fill_empty_taxonomy plant_name, w1))
  /\ fetch_taxonomy svc plant_name w = (fill_empty_taxonomy plant_name, w1)
  /\ t_key (fill_empty_taxonomy plant_name) = None
  /\ (forall level, taxon_get (fill_empty_taxonomy plant_name) level = "N/A")
  /\ t_rank (fill_empty_taxonomy plant_name) = "N/A".
Proof.
  intros Hresp Hnone w1. repeat split.
  - intros remaining attempt. by apply (fetch_taxonomy_loop_no_match _ _ data).
  - by apply (fetch_taxonomy_loop_no_match _ _ data).
  - apply fill_empty_taxonomy_get.
Qed.

(** Five failed requests in a row exhaust the loop. *)
Lemma fetch_taxonomy_loop_exhausted plant_name :
  forall remaining attempt w,
    (forall i, i < remaining ->
               is_failure (match_api svc (clock w + i) plant_name) = true) ->
    fst (fetch_taxonomy_loop svc remaining attempt plant_name w)
      = fill_empty_taxonomy plant_name
    /\ clock (snd (fetch_taxonomy_loop svc remaining attempt plant_name w))
      = clock w + remaining.
Proof.
  intros remaining. induction remaining as [|r IH]; intros attempt w Hfail.
  - cbn. split; [reflexivity | lia].
  - assert (Hnext : forall a w', clock w' = S (clock w) ->
              fst (fetch_taxonomy_loop svc r a plant_name w')
                = fill_empty_taxonomy plant_name
              /\ clock (snd (fetch_taxonomy_loop svc r a plant_name w'))
                = clock w + S r).
    { intros a w' Hw'. destruct (IH a w') as [IH1 IH2].
      - intros i Hi. rewrite Hw'.
        replace (S (clock w) + i) with (clock w + S i) by lia.
        apply Hfail. lia.
      - split; [exact IH1 | rewrite IH2, Hw'; lia]. }
    pose proof (Hfail 0 ltac:(lia)) as H0. rewrite Nat.add_0_r in H0.
    cbn [fetch_taxonomy_loop get_match].
    destruct (match_api svc (clock w) plant_name) as [body|code| |];
      [discriminate H0 | | |]; apply Hnext; try reflexivity.
    destruct (code =? 429)%Z; reflexivity.
Qed.

End ResolverFacts.

(** ** Rows *)

Lemma lookup_foldl_insert (f : Rank -> string) (levels : list Rank) :
  forall (m : gmap Rank string) (k : Rank),
    foldl (fun d level => <[level := f level]> d) m levels !! k
    = if decide (k ∈ levels) then Some (f k) else m !! k.
Proof.
  induction levels as [|level levels IH]; intros m k; cbn [foldl].
  - destruct (decide (k ∈ [])) as [Hin|_]; [by apply elem_of_nil in Hin | done].
  - rewrite IH.
    destruct (decide (k ∈ levels)) as [Hin|Hnin].
    + rewrite decide_True by (by right). done.
    + destruct (decide (k = level)) as [->|Hne].
      * rewrite decide_True by (by left). by rewrite lookup_insert_eq.
      * rewrite decide_False by (intros [?|?]%elem_of_cons; done).
        by rewrite lookup_insert_ne.
Qed.

Lemma filter_all {A} (p : A -> bool) (l : list A) :
  (forall x, x ∈ l -> p x = true) -> List.filter p l = l.
Proof.
  induction l as [|x l IH]; intros Hall; cbn [List.filter]; [done|].
  rewrite (Hall x) by (by left). f_equal. apply IH. intros y Hy. apply Hall. by right.
Qed.

Lemma filter_none {A} (p : A -> bool) (l : list A) :
  (forall x, x ∈ l -> p x = false) -> List.filter p l = [].
Proof.
  induction l as [|x l IH]; intros Hall; cbn [List.filter]; [done|].
  rewrite (Hall x) by (by left). apply IH. intros y Hy. apply Hall. by right.
Qed.

Section NameFacts.

Variable svc : Service.
Variable fuel : nat.
Variable input_level : Rank.
Variable levels : list Rank.
Variable output_format : OutputFormat.

Lemma lookup_unresolved_row plant_name level :
  <[input_level := plant_name]>
    (foldl (fun d level => <[level := ""]> d) (∅ : gmap Rank string) levels) !! level
  = if decide (level = input_level) then Some plant_name
    else if decide (level ∈ levels) then Some "" else None.
Proof.
  destruct (decide (level = input_level)) as [->|Hne].
  - by rewrite lookup_insert_eq.
  - rewrite lookup_insert_ne by done.
    by rewrite (lookup_foldl_insert (fun _ => "")).
Qed.

Lemma process_plant_unresolved plant_name w taxonomy w1 :
  fetch_taxonomy svc plant_name w = (taxonomy, w1) ->
  t_key taxonomy = None ->
  process_plant svc fuel plant_name input_level levels w
  = Some ([<[input_level := plant_name]>
             (foldl (fun d level => <[level := ""]> d) ∅ levels)], false, w1).
Proof.
  intros Hfetch Hkey. unfold process_plant. rewrite Hfetch, Hkey. reflexivity.
Qed.

(** C1.  A name whose taxon comes back without a key adds exactly one
    line to the output, the line of a row that holds the queried name at
    the input rank, the empty string at every other requested rank and
    nothing else; the failure count goes up by one and the success count
    stays. *)
Theorem unresolved_name_one_row_one_failure
    (plant_name : string) (w : World) (st : RunState)
    (taxonomy : Taxon) (w1 : World) :
  fetch_taxonomy svc plant_name w = (taxonomy, w1) ->
  t_key taxonomy = None ->
  exists data : gmap Rank string,
    process_and_write svc fuel input_level levels output_format plant_name (w, st)
    = Some (w1, {| success_count := success_count st;
                   failure_count := failure_count st + 1;
                   outfile := outfile st
                              ++ [write_row output_format input_level levels data] |})
    /\ data !! input_level = Some plant_name
    /\ (forall level, level ∈ levels -> level ≠ input_level ->
                      data !! level = Some "")
    /\ (forall level, level ∉ levels -> level ≠ input_level ->
                      data !! level = None)
    /\ row_of input_level levels data
       = plant_name
         :: map (fun level => if decide (level = input_level)
                              then plant_name else "") levels.
Proof.
  intros Hfetch Hkey.
  exists (<[input_level := plant_name]>
            (foldl (fun d level => <[level := ""]> d) ∅ levels)).
  split; [|split; [|split; [|split]]].
  - unfold process_and_write.
    rewrite (process_plant_unresolved _ _ _ _ Hfetch Hkey). reflexivity.
  - rewrite lookup_unresolved_row. by rewrite decide_True.
  - intros level Hin Hne. rewrite lookup_unresolved_row.
    rewrite decide_False by done. by rewrite decide_True.
  - intros level Hin Hne. rewrite lookup_unresolved_row.
    rewrite decide_False by done. by rewrite decide_False.
  - unfold row_of. cbn [app map].
    rewrite lookup_unresolved_row, decide_True by done. cbn [default]. f_equal.
    apply map_ext_in. intros level Hin%list_elem_of_In.
    rewrite lookup_unresolved_row.
    destruct (decide (level = input_level)); [done|].
    by rewrite decide_True.
Qed.

(** C6.  When no requested rank lies below the input rank, a resolved name
    gives exactly one row.  At every requested rank it holds the field of
    that rank of the resolved taxon, kingdom for kingdom up to species for
    species, which is the field of the body the service sent or ["N/A"]
    where the body has none; besides the input rank it holds nothing
    else. *)
Theorem resolved_without_lower_ranks_one_row
    (plant_name : string) (w : World) (taxonomy : Taxon) (w1 : World) (key : Z) :
  fetch_taxonomy svc plant_name w = (taxonomy, w1) ->
  t_key taxonomy = Some key ->
  (forall level, level ∈ levels -> rank_index level <= rank_index input_level) ->
  exists data : gmap Rank string,
    process_plant svc fuel plant_name input_level levels w = Some ([data], true, w1)
    /\ (forall level, level ∈ levels ->
          data !! level
          = Some match level with
                 | kingdom => t_kingdom taxonomy
                 | phylum => t_phylum taxonomy
                 | class => t_class taxonomy
                 | order => t_order taxonomy
                 | family => t_family taxonomy
                 | genus => t_genus taxonomy
                 | species => t_species taxonomy
                 end)
    /\ (forall body, match_api svc (clock w) plant_name = Ok body ->
          forall level, level ∈ levels ->
            data !! level
            = Some (default "N/A"
                      match level with
                      | kingdom => j_kingdom body
                      | phylum => j_phylum body
                      | class => j_class body
                      | order => j_order body
                      | family => j_family body
                      | genus => j_genus body
                      | species => j_species body
                      end))
    /\ (input_level ∉ levels -> data !! input_level = Some plant_name)
    /\ (forall level, level ∉ levels -> level ≠ input_level -> data !! level = None).
Proof.
  intros Hfetch Hkey Hhigher.
  exists (foldl (fun d level => <[level := taxon_get taxonomy level]> d)
            {[input_level := plant_name]} levels).
  assert (Hvalue : forall level, level ∈ levels ->
            foldl (fun d level => <[level := taxon_get taxonomy level]> d)
              ({[input_level := plant_name]} : gmap Rank string) levels !! level
            = Some (taxon_get taxonomy level)).
  { intros level Hin. rewrite lookup_foldl_insert. by rewrite decide_True. }
  split; [|split; [|split; [|split]]].
  - unfold process_plant. rewrite Hfetch, Hkey.
    rewrite filter_none, filter_all; [reflexivity | |].
    + intros level Hin. apply Nat.leb_le. by apply Hhigher.
    + intros level Hin. apply Nat.ltb_ge. by apply Hhigher.
  - intros level Hin. rewrite (Hvalue level Hin). by destruct level.
  - intros body Hbody level Hin. rewrite (Hvalue level Hin).
    unfold fetch_taxonomy, RETRY_LIMIT in Hfetch.
    cbn [fetch_taxonomy_loop get_match] in Hfetch. rewrite Hbody in Hfetch.
    destruct (match_found body); injection Hfetch as <- _.
    + by destruct level.
    + discriminate Hkey.
  - intros Hnin. rewrite lookup_foldl_insert, decide_False by done.
    by rewrite lookup_singleton_eq.
  - intros level Hnin Hne. rewrite lookup_foldl_insert, decide_False by done.
    by rewrite lookup_singleton_ne.
Qed.

(** C5.  At a step of the descent whose rank is requested and for which
    the enumeration returns no child, the branch ends there: the row as it
    stands is appended once to the rows collected so far, unchanged, and
    nothing deeper is requested for it. *)
Theorem no_children_emits_current_row
    (gas : nat) (lower_levels : list Rank) (current_key : option Z)
    (current_data : gmap Rank string) (current_rank_index : nat)
    (rows : list (gmap Rank string)) (w w1 : World) (next_rank : Rank) :
  taxonomic_ranks !! (current_rank_index + 1) = Some next_rank ->
  next_rank ∈ lower_levels ->
  fetch_children svc fuel current_key (rank_name next_rank) w = Some ([], w1) ->
  fetch_lower_levels svc (S gas) fuel lower_levels current_key current_data
    current_rank_index rows w
  = Some (rows ++ [current_data], w1).
Proof.
  intros Hnext Hin Hnone.
  pose proof (lookup_lt_Some _ _ _ Hnext) as Hlt. cbn [length taxonomic_ranks] in Hlt.
  cbn [fetch_lower_levels].
  replace (length taxonomic_ranks - 1 <=? current_rank_index) with false
    by (symmetry; apply Nat.leb_gt; cbn; lia).
  rewrite Hnext, bool_decide_eq_true_2 by done.
  rewrite Hnone. reflexivity.
Qed.

End NameFacts.

(** C10.  A name whose five requests all fail and a name the service
    reports as not matched end alike: both resolutions return the empty
    taxon, and from equal run states both add the same single row and
    count one failure, no success. *)
Theorem exhausted_retries_same_as_no_match
    (svc1 svc2 : Service) (fuel : nat) (input_level : Rank) (levels : list Rank)
    (output_format : OutputFormat) (plant_name : string) (w1 w2 : World)
    (st : RunState) (data : MatchJson) :
  (forall i, i < RETRY_LIMIT ->
             is_failure (match_api svc1 (clock w1 + i) plant_name) = true) ->
  match_api svc2 (clock w2) plant_name = Ok data ->
  matchType data = Some "NONE" ->
  fst (fetch_taxonomy svc1 plant_name w1) = fill_empty_taxonomy plant_name
  /\ fst (fetch_taxonomy svc2 plant_name w2) = fill_empty_taxonomy plant_name
  /\ t_key (fill_empty_taxonomy plant_name) = None
  /\ exists (row : gmap Rank string) (w1' w2' : World) (st' : RunState),
      process_and_write svc1 fuel input_level levels output_format plant_name (w1, st)
        = Some (w1', st')
      /\ process_and_write svc2 fuel input_level levels output_format plant_name (w2, st)
        = Some (w2', st')
      /\ outfile st' = outfile st ++ [write_row output_format input_level levels row]
      /\ row = <[input_level := plant_name]>
                 (foldl (fun d level => <[level := ""]> d) ∅ levels)
      /\ failure_count st' = failure_count st + 1
      /\ success_count st' = success_count st.
Proof.
  intros Hfail Hresp Hnone.
  destruct (fetch_taxonomy_loop_exhausted svc1 plant_name RETRY_LIMIT 0 w1 Hfail)
    as [Hex _].
  pose proof (fetch_taxonomy_loop_no_match svc2 plant_name w2 data 4 0 Hresp Hnone)
    as Hnm.
  fold RETRY_LIMIT in Hnm. fold (fetch_taxonomy svc2 plant_name w2) in Hnm.
  fold (fetch_taxonomy svc1 plant_name w1) in Hex.
  split; [exact Hex|]. split; [by rewrite Hnm|]. split; [reflexivity|].
  destruct (fetch_taxonomy svc1 plant_name w1) as [t1 w1'] eqn:H1.
  cbn [fst] in Hex. subst t1.
  eexists _, w1', _, _. split; [|split; [|split; [|split; [reflexivity|split]]]].
  - unfold process_and_write.
    rewrite (process_plant_unresolved svc1 fuel input_level levels _ _ _ _ H1 eq_refl).
    reflexivity.
  - unfold process_and_write.
    rewrite (process_plant_unresolved svc2 fuel input_level levels _ _ _ _ Hnm eq_refl).
    reflexivity.
  - reflexivity.
  - reflexivity.
  - reflexivity.
Qed.

(** ** Conflict validator *)

Lemma list_remove_split (x : Rank) (l : list Rank) :
  x ∈ l ->
  exists l1 l2, l = l1 ++ x :: l2 /\ (x ∉ l1) /\ list_remove x l = l1 ++ l2.
Proof.
  induction l as [|y l IH]; intros Hin; [by apply elem_of_nil in Hin|].
  cbn [list_remove]. destruct (decide (x = y)) as [->|Hne].
  - exists [], l. split; [done|]. split; [apply not_elem_of_nil | done].
  - apply elem_of_cons in Hin as [?|Hin]; [done|].
    destruct (IH Hin) as (l1 & l2 & -> & Hnin & Hrem).
    exists (y :: l1), l2. split; [done|]. split.
    + intros [?|?]%elem_of_cons; done.
    + by rewrite Hrem.
Qed.

Lemma lookup_levels_in_choices abbrs levels :
  lookup_levels abbrs = Some levels -> forallb in_choices abbrs = true.
Proof.
  revert levels. induction abbrs as [|a abbrs IH]; intros levels Hl; [done|].
  cbn [lookup_levels] in Hl. cbn [forallb]. unfold in_choices at 1.
  destruct (RANK_ABBREVIATIONS a); [|discriminate Hl].
  destruct (lookup_levels abbrs) as [rs|]; [|discriminate Hl].
  by rewrite (IH rs).
Qed.

Lemma main_exit_only svc fuel env args w code final :
  main_config args = SysExit code ->
  main svc fuel env args w final
  <-> final = {| status := Exited code; net_after := w; file_after := output_file env |}.
Proof.
  intros Hcfg. split.
  - intros Hrun. inversion Hrun; subst; congruence.
  - intros ->. by constructor.
Qed.

(** C2.  With the input rank among the requested output ranks: if more
    than one rank is requested, the validator drops the first occurrence of
    the input rank and nothing else, the other ranks keep their order (and
    no longer hold the input rank when no rank was given twice), and the
    run goes on to process the names with that list; if it is the only
    requested rank, the validator exits with status 1, and the run ends
    there with no request sent and the output file untouched. *)
Theorem conflicting_rank_removed_or_fatal
    (args : Args) (a : string) (abbrs : list string)
    (input_level : Rank) (levels : list Rank) :
  arg_in_level args = Some a ->
  RANK_ABBREVIATIONS a = Some input_level ->
  arg_out_level args = Some abbrs ->
  lookup_levels abbrs = Some levels ->
  input_level ∈ levels ->
  (1 < length levels ->
   exists l1 l2,
     levels = l1 ++ input_level :: l2
     /\ (input_level ∉ l1)
     /\ (NoDup levels -> input_level ∉ l1 ++ l2)
     /\ check_conflict input_level levels = Return (l1 ++ l2)
     /\ main_config args = Return (input_level, l1 ++ l2)
     /\ forall svc fuel env w final,
         arg_retry args = false ->
         (main svc fuel env args w final
          <-> process_plant_file svc fuel env input_level (l1 ++ l2)
                (arg_parallel args) (arg_output_format args) w final))
  /\ (length levels = 1 ->
      check_conflict input_level levels = SysExit 1
      /\ forall svc fuel env w final,
          main svc fuel env args w final
          <-> final = {| status := Exited 1; net_after := w;
                         file_after := output_file env |}).
Proof.
  intros Hin Ha Hout Habbrs Helem.
  assert (Hcfg : main_config args
                 = match check_conflict input_level levels with
                   | SysExit code => SysExit code
                   | Return levels' => Return (input_level, levels')
                   end).
  { unfold main_config, parse_args_ok.
    rewrite Hin, Hout, (lookup_levels_in_choices _ _ Habbrs).
    unfold in_choices. rewrite Ha. cbn [andb negb].
    destruct abbrs as [|b abbrs'].
    - injection Habbrs as <-. by apply elem_of_nil in Helem.
    - by rewrite Habbrs. }
  split.
  - intros Hlen.
    destruct (list_remove_split _ _ Helem) as (l1 & l2 & Hsplit & Hnin & Hrem).
    assert (Hcheck : check_conflict input_level levels = Return (l1 ++ l2)).
    { unfold check_conflict. rewrite bool_decide_eq_true_2 by done.
      replace (length levels =? 1) with false by (symmetry; apply Nat.eqb_neq; lia).
      by rewrite Hrem. }
    exists l1, l2.
    split; [done|]. split; [done|].
    split.
    { rewrite Hsplit. intros [_ [_ Hnd%NoDup_cons]]%NoDup_app.
      intros [?|?]%elem_of_app; [done | by destruct Hnd]. }
    split; [done|].
    split; [by rewrite Hcfg, Hcheck|].
    intros svc fuel env w final Hretry. split.
    + intros Hrun. rewrite Hcheck in Hcfg.
      inversion Hrun as [code Hc|il ls Hc Hr|il ls fin Hc Hr Hppf]; subst;
        rewrite Hcfg in Hc; congruence.
    + intros Hrun. eapply main_process; [by rewrite Hcfg, Hcheck | done | done].
  - intros Hlen.
    assert (Hcheck : check_conflict input_level levels = SysExit 1).
    { unfold check_conflict. rewrite bool_decide_eq_true_2 by done.
      by rewrite Hlen. }
    split; [done|]. intros svc fuel env w final.
    apply main_exit_only. by rewrite Hcfg, Hcheck.
Qed.

(** ** Children enumeration *)

Lemma requested_offsets_app l1 l2 :
  requested_offsets (l1 ++ l2) = requested_offsets l1 ++ requested_offsets l2.
Proof. apply flat_map_app. Qed.

Lemma requested_offsets_sleep delays w :
  requested_offsets (log (sleep delays w)) = requested_offsets (log w).
Proof.
  cbn [sleep log]. rewrite requested_offsets_app. cbn. by rewrite app_nil_r.
Qed.

Section ChildrenFacts.

Variable svc : Service.
Variable parent_key : option Z.
Variable rank : string.

(** One request of the loop, by the kind of answer. *)
Lemma fetch_children_try_ok v w page :
  children_api svc (clock w) parent_key limit (offset v) = Ok page ->
  exists w',
    fetch_children_try svc parent_key rank v w
    = (if length page <? limit then Break else FallThrough,
       {| offset := if length page <? limit then offset v else offset v + limit;
          attempt := attempt v;
          results := results v ++ page_results rank page |}, w')
    /\ clock w' = S (clock w)
    /\ requested_offsets (log w') = requested_offsets (log w) ++ [offset v].
Proof.
  intros Hresp. unfold fetch_children_try, get_children. rewrite Hresp.
  destruct (length page <? limit); eexists; (split; [reflexivity|]); split;
    try reflexivity.
  - cbn [log]. rewrite requested_offsets_app. reflexivity.
  - rewrite requested_offsets_sleep. cbn [log]. rewrite requested_offsets_app.
    reflexivity.
Qed.

Lemma fetch_children_try_failure v w :
  is_failure (children_api svc (clock w) parent_key limit (offset v)) = true ->
  exists w',
    fetch_children_try svc parent_key rank v w
    = (FallThrough,
       {| offset := offset v; attempt := attempt v + 1; results := results v |}, w')
    /\ clock w' = S (clock w)
    /\ requested_offsets (log w') = requested_offsets (log w) ++ [offset v].
Proof.
  intros Hfail. unfold fetch_children_try, get_children.
  destruct (children_api svc (clock w) parent_key limit (offset v))
    as [page|code| |]; [discriminate| | |].
  - destruct (code =? 429)%Z; eexists; (split; [reflexivity|]); split;
      try reflexivity.
    + rewrite requested_offsets_sleep. cbn [log]. by rewrite requested_offsets_app.
    + cbn [log]. by rewrite requested_offsets_app.
  - eexists; (split; [reflexivity|]); split; try reflexivity.
    cbn [log]. by rewrite requested_offsets_app.
  - eexists; (split; [reflexivity|]); split; try reflexivity.
    cbn [log]. by rewrite requested_offsets_app.
Qed.

Lemma failures_cons {A} (r : Response A) rs :
  failures (r :: rs) = (if is_failure r then 1 else 0) + failures rs.
Proof. unfold failures. cbn [List.filter]. by destruct (is_failure r). Qed.

Lemma bodies_failure {A} (r : Response A) rs :
  is_failure r = true -> bodies (r :: rs) = bodies rs.
Proof. by destruct r. Qed.

Lemma next_offset_failure {A} (r : Response A) o :
  is_failure r = true -> next_offset o r = o.
Proof. by destruct r. Qed.

(** The loop run against a sequence of answers: it goes through [rs],
    none of which ends it, and returns on [last]. *)
Lemma fetch_children_loop_script :
  forall rs last fuel v w,
    answers svc parent_key (clock w) (offset v) (rs ++ [last]) ->
    Forall (fun r => is_short_page r = false) rs ->
    attempt v + failures rs < RETRY_LIMIT ->
    is_short_page last = true
    \/ (is_failure last = true /\ attempt v + failures rs + 1 = RETRY_LIMIT) ->
    length rs < fuel ->
    exists w',
      fetch_children_loop svc fuel parent_key rank v w
      = Some (results v ++ flat_map (page_results rank) (bodies (rs ++ [last])), w')
      /\ clock w' = clock w + length (rs ++ [last])
      /\ requested_offsets (log w')
         = requested_offsets (log w) ++ page_offsets (offset v) (rs ++ [last]).
Proof.
  induction rs as [|r rs IH]; intros last fuel v w Hans Hfull Hatt Hstop Hfuel;
    (destruct fuel as [|fuel]; [cbn in Hfuel; lia|]);
    cbn [app answers] in Hans; destruct Hans as [Hresp Hans];
    cbn [fetch_children_loop].
  - destruct Hstop as [Hshort | [Hfail Hcount]].
    + destruct last as [page| | |]; try discriminate Hshort.
      unfold is_short_page in Hshort.
      destruct (fetch_children_try_ok v w page Hresp) as (w' & Htry & Hclock & Hlog).
      rewrite Htry, Hshort. exists w'.
      cbn [results app bodies flat_map length page_offsets].
      rewrite app_nil_r. split; [reflexivity|]. split; [lia | exact Hlog].
    + rewrite <- Hresp in Hfail.
      destruct (fetch_children_try_failure v w Hfail) as (w' & Htry & Hclock & Hlog).
      rewrite Htry. cbn [attempt results].
      cbn [failures List.filter length] in Hcount.
      replace (RETRY_LIMIT <=? attempt v + 1) with true
        by (symmetry; apply Nat.leb_le; lia).
      exists w'. rewrite Hresp in Hfail. cbn [app].
      rewrite (bodies_failure _ _ Hfail).
      cbn [bodies flat_map app length page_offsets]. rewrite app_nil_r.
      split; [reflexivity|]. split; [lia | exact Hlog].
  - apply Forall_cons in Hfull as [Hr Hfull].
    rewrite failures_cons in Hatt. rewrite failures_cons in Hstop.
    destruct (is_failure r) eqn:Hfail.
    + pose proof Hfail as Hfail'. rewrite <- Hresp in Hfail'.
      destruct (fetch_children_try_failure v w Hfail') as (w' & Htry & Hclock & Hlog).
      rewrite Htry. cbn [attempt].
      replace (RETRY_LIMIT <=? attempt v + 1) with false
        by (symmetry; apply Nat.leb_gt; lia).
      set (v' := {| offset := offset v; attempt := attempt v + 1; results := results v |}).
      destruct (IH last fuel v' (sleep 1 w')) as (w'' & Hloop & Hclock' & Hlog').
      * cbn [clock sleep offset v']. rewrite Hclock.
        by rewrite (next_offset_failure _ _ Hfail) in Hans.
      * exact Hfull.
      * cbn [attempt v']. lia.
      * cbn [attempt v'].
        destruct Hstop as [?|[? ?]]; [by left | right; split; [done | lia]].
      * cbn [length] in Hfuel. lia.
      * exists w''. rewrite Hloop. cbn [results v' app].
        rewrite (bodies_failure _ _ Hfail).
        split; [reflexivity|]. split.
        -- rewrite Hclock'. cbn [clock sleep length app]. lia.
        -- rewrite Hlog', requested_offsets_sleep, Hlog.
           cbn [offset v' app page_offsets].
           rewrite (next_offset_failure _ _ Hfail). by rewrite <- app_assoc.
    + destruct r as [page| | |]; try discriminate Hfail.
      unfold is_short_page in Hr.
      destruct (fetch_children_try_ok v w page Hresp) as (w' & Htry & Hclock & Hlog).
      rewrite Htry, Hr. cbn [attempt].
      replace (RETRY_LIMIT <=? attempt v) with false
        by (symmetry; apply Nat.leb_gt; lia).
      set (v' := {| offset := offset v + limit; attempt := attempt v;
                    results := results v ++ page_results rank page |}).
      destruct (IH last fuel v' (sleep 1 w')) as (w'' & Hloop & Hclock' & Hlog').
      * cbn [clock sleep offset v']. rewrite Hclock. exact Hans.
      * exact Hfull.
      * cbn [attempt v']. lia.
      * cbn [attempt v'].
        destruct Hstop as [?|[? ?]]; [by left | right; split; [done | lia]].
      * cbn [length] in Hfuel. lia.
      * exists w''. rewrite Hloop. cbn [results v' app bodies flat_map].
        rewrite <- app_assoc. split; [reflexivity|]. split.
        -- rewrite Hclock'. cbn [clock sleep length app]. lia.
        -- rewrite Hlog', requested_offsets_sleep, Hlog.
           cbn [offset v' app page_offsets next_offset]. by rewrite <- app_assoc.
Qed.

(** Conversely, a loop that returns has gone through such a sequence of
    answers: it ends on a short page or on the failure that brings the
    count to the retry limit, and on nothing else. *)
Lemma fetch_children_loop_returns :
  forall fuel v w children w',
    attempt v < RETRY_LIMIT ->
    fetch_children_loop svc fuel parent_key rank v w = Some (children, w') ->
    exists rs last,
      answers svc parent_key (clock w) (offset v) (rs ++ [last])
      /\ Forall (fun r => is_short_page r = false) rs
      /\ attempt v + failures rs < RETRY_LIMIT
      /\ (is_short_page last = true
          \/ (is_failure last = true /\ attempt v + failures rs + 1 = RETRY_LIMIT))
      /\ length rs < fuel.
Proof.
  intros fuel. induction fuel as [|fuel IH]; intros v w children w' Hatt Hrun;
    [discriminate Hrun|].
  cbn [fetch_children_loop] in Hrun.
  remember (children_api svc (clock w) parent_key limit (offset v)) as r eqn:Hresp.
  symmetry in Hresp.
  destruct (is_failure r) eqn:Hfail.
  - pose proof Hfail as Hfail'. rewrite <- Hresp in Hfail'.
    destruct (fetch_children_try_failure v w Hfail') as (w1 & Htry & Hclock & _).
    rewrite Htry in Hrun. cbn [attempt] in Hrun.
    destruct (RETRY_LIMIT <=? attempt v + 1) eqn:Hlim.
    + apply Nat.leb_le in Hlim.
      exists [], r. cbn [app answers length failures List.filter].
      repeat split; try done; try lia. right. split; [done | lia].
    + apply Nat.leb_gt in Hlim.
      apply IH in Hrun as (rs & last & Hans & Hfull & Hcount & Hstop & Hlen);
        [|cbn [attempt]; lia].
      cbn [clock sleep offset attempt] in *. rewrite Hclock in Hans.
      exists (r :: rs), last. rewrite failures_cons, Hfail.
      cbn [app answers length]. rewrite (next_offset_failure _ _ Hfail).
      split; [by split|].
      split; [constructor; [by destruct r | done]|].
      split; [lia|]. split; [|lia].
      destruct Hstop as [?|[? ?]]; [by left | right; split; [done | lia]].
  - destruct r as [page| | |]; try discriminate Hfail.
    destruct (fetch_children_try_ok v w page Hresp) as (w1 & Htry & Hclock & _).
    rewrite Htry in Hrun. cbn [attempt] in Hrun.
    destruct (length page <? limit) eqn:Hshort.
    + exists [], (Ok page). cbn [app answers length failures List.filter].
      repeat split; try done; try lia. by left.
    + replace (RETRY_LIMIT <=? attempt v) with false in Hrun
        by (symmetry; apply Nat.leb_gt; lia).
      apply IH in Hrun as (rs & last & Hans & Hfull & Hcount & Hstop & Hlen);
        [|cbn [attempt]; lia].
      cbn [clock sleep offset attempt] in *. rewrite Hclock in Hans.
      exists (Ok page :: rs), last. rewrite failures_cons.
      cbn [app answers length is_failure next_offset].
      split; [by split|]. split; [by constructor|].
      split; [lia|]. split; [|lia].
      destruct Hstop as [?|[? ?]]; [by left | right; split; [done | lia]].
Qed.

End ChildrenFacts.

Lemma bodies_app {A} (rs1 rs2 : list (Response A)) :
  bodies (rs1 ++ rs2) = bodies rs1 ++ bodies rs2.
Proof.
  induction rs1 as [|r rs1 IH]; [done|].
  destruct r; cbn [app bodies]; by rewrite IH.
Qed.

Lemma failures_app {A} (rs1 rs2 : list (Response A)) :
  failures (rs1 ++ rs2) = failures rs1 + failures rs2.
Proof. unfold failures. by rewrite List.filter_app, length_app. Qed.

(** C4, as the code has it.  Let the service give the answers
    [rs ++ [last]] to the successive requests of one enumeration, where no
    answer of [rs] is a page of fewer than 1000 results, [rs] holds fewer
    than five failures, and [last] is either such a short page or the fifth
    failure.  Then the enumeration makes exactly these requests and returns:
    the offset starts at 0, moves on by 1000 after each page and is repeated
    after each failure, and the result holds the matching children of every
    page received, each page once, in order. *)
Theorem fetch_children_pagination
    (svc : Service) (parent_key : option Z) (rank : string) (fuel : nat)
    (w : World) (rs : list (Response (list ChildJson)))
    (last : Response (list ChildJson)) :
  answers svc parent_key (clock w) 0 (rs ++ [last]) ->
  Forall (fun r => is_short_page r = false) rs ->
  failures rs < RETRY_LIMIT ->
  is_short_page last = true
  \/ (is_failure last = true /\ failures rs + 1 = RETRY_LIMIT) ->
  length rs < fuel ->
  exists w',
    fetch_children svc fuel parent_key rank w
    = Some (flat_map (page_results rank) (bodies (rs ++ [last])), w')
    /\ clock w' = clock w + length (rs ++ [last])
    /\ requested_offsets (log w')
       = requested_offsets (log w) ++ page_offsets 0 (rs ++ [last]).
Proof.
  intros Hans Hfull Hatt Hstop Hfuel. unfold fetch_children.
  by apply (fetch_children_loop_script svc parent_key rank rs last fuel
              {| offset := 0; attempt := 0; results := [] |} w).
Qed.

Lemma fetch_children_pagination_witness :
  exists w',
    fetch_children svc_two_pages 3 (Some 1%Z) "genus" w0
    = Some (flat_map (page_results "genus")
              (bodies ([Ok full_page; Timeout] ++ [Ok [genus_json 8 "Rubus L."]])), w')
    /\ clock w' = clock w0 + length ([Ok full_page; Timeout] ++ [Ok [genus_json 8 "Rubus L."]])
    /\ requested_offsets (log w')
       = requested_offsets (log w0)
         ++ page_offsets 0 ([Ok full_page; Timeout] ++ [Ok [genus_json 8 "Rubus L."]]).
Proof.
  apply (fetch_children_pagination svc_two_pages (Some 1%Z) "genus" 3 w0
           [Ok full_page; Timeout] (Ok [genus_json 8 "Rubus L."])).
  - vm_compute. repeat split.
  - repeat constructor.
  - vm_compute. lia.
  - left. reflexivity.
  - cbn. lia.
Defined.

(** Five time-outs: five requests at offset 0, a pause after each of the
    first four, and an empty list returned. *)
Lemma fetch_children_five_timeouts :
  fetch_children svc_timeout 5 (Some 1%Z) "genus" w0
  = Some ([], {| clock := 5;
                 log := [GetChildren (Some 1%Z) limit 0; Sleep 1;
                         GetChildren (Some 1%Z) limit 0; Sleep 1;
                         GetChildren (Some 1%Z) limit 0; Sleep 1;
                         GetChildren (Some 1%Z) limit 0; Sleep 1;
                         GetChildren (Some 1%Z) limit 0] |}).
Proof. reflexivity. Qed.

(** C4, as stated, fails: against a service that only times out the
    enumeration returns after five requests although no answer it could
    ever get is a page of fewer than 1000 results. *)
Lemma fetch_children_stops_without_short_page :
  ~ (forall (svc : Service) (fuel : nat) (parent_key : option Z) (rank : string)
            (w : World) (children : list Child) (w' : World),
        fetch_children svc fuel parent_key rank w = Some (children, w') ->
        exists n offset page,
          children_api svc n parent_key limit offset = Ok page
          /\ length page < limit).
Proof.
  intros Hclaim.
  destruct (Hclaim _ _ _ _ _ _ _ fetch_children_five_timeouts)
    as (n & offset & page & Hpage & _).
  discriminate Hpage.
Qed.

(** C8.  Let the successive requests of one enumeration get the answers
    [rs ++ [last]], where [last] is the fifth failure and the pages among
    [rs] are all full.  Then the enumeration returns a list, the matching
    children of the pages received before, and nothing else happens. *)
Theorem fetch_children_exhausted_returns_partial
    (svc : Service) (parent_key : option Z) (rank : string) (fuel : nat)
    (w : World) (rs : list (Response (list ChildJson)))
    (last : Response (list ChildJson)) :
  answers svc parent_key (clock w) 0 (rs ++ [last]) ->
  Forall (fun r => is_short_page r = false) rs ->
  is_failure last = true ->
  failures (rs ++ [last]) = RETRY_LIMIT ->
  length rs < fuel ->
  exists w',
    fetch_children svc fuel parent_key rank w
    = Some (flat_map (page_results rank) (bodies rs), w')
    /\ clock w' = clock w + length (rs ++ [last]).
Proof.
  intros Hans Hfull Hlast Hcount Hfuel.
  rewrite failures_app, failures_cons, Hlast in Hcount. cbn [failures List.filter length] in Hcount.
  destruct (fetch_children_loop_script svc parent_key rank rs last fuel
              {| offset := 0; attempt := 0; results := [] |} w)
    as (w' & Hloop & Hclock & _); try done.
  - cbn [attempt]. lia.
  - right. split; [done|]. cbn [attempt]. lia.
  - exists w'. unfold fetch_children. rewrite Hloop.
    rewrite bodies_app, (bodies_failure _ _ Hlast). cbn [bodies results app].
    rewrite app_nil_r. by split.
Qed.

Lemma fetch_children_exhausted_returns_partial_witness :
  exists w',
    fetch_children svc_page_then_timeouts 6 (Some 1%Z) "genus" w0
    = Some (flat_map (page_results "genus")
              (bodies [Ok full_page; Timeout; Timeout; Timeout; Timeout]), w')
    /\ clock w' = clock w0 + length ([Ok full_page; Timeout; Timeout; Timeout; Timeout]
                                      ++ [Timeout]).
Proof.
  apply (fetch_children_exhausted_returns_partial svc_page_then_timeouts (Some 1%Z)
           "genus" 6 w0 [Ok full_page; Timeout; Timeout; Timeout; Timeout] Timeout).
  - vm_compute. repeat split.
  - repeat constructor.
  - reflexivity.
  - reflexivity.
  - cbn. lia.
Defined.

(** ** A service with fixed answers *)

Lemma for_each_fst {A R W : Type} (body : A -> R * W -> option (R * W)) :
  (forall x r w w', fst <$> body x (r, w) = fst <$> body x (r, w')) ->
  forall l r w w', fst <$> for_each body l (r, w) = fst <$> for_each body l (r, w').
Proof.
  intros Hbody l. induction l as [|x l IH]; intros r w w'; cbn [for_each]; [done|].
  specialize (Hbody x r w w').
  destruct (body x (r, w)) as [[r1 w1]|], (body x (r, w')) as [[r1' w1']|];
    cbn in Hbody; try done.
  injection Hbody as ->. apply IH.
Qed.

Section Stateless.

Variable svc : Service.
Hypothesis svc_stateless : stateless svc.

Lemma fetch_taxonomy_loop_stateless plant_name :
  forall remaining attempt w w',
    fst (fetch_taxonomy_loop svc remaining attempt plant_name w)
    = fst (fetch_taxonomy_loop svc remaining attempt plant_name w').
Proof.
  intros remaining. induction remaining as [|r IH]; intros attempt w w'; [done|].
  cbn [fetch_taxonomy_loop get_match].
  rewrite (proj1 svc_stateless (clock w) (clock w')).
  destruct (match_api svc (clock w') plant_name) as [data|code| |].
  - by destruct (match_found data).
  - apply IH.
  - apply IH.
  - apply IH.
Qed.

Lemma fetch_children_try_stateless parent_key rank v w w' :
  fst (fetch_children_try svc parent_key rank v w)
  = fst (fetch_children_try svc parent_key rank v w').
Proof.
  unfold fetch_children_try, get_children.
  rewrite (proj2 svc_stateless (clock w) (clock w')).
  destruct (children_api svc (clock w') parent_key limit (offset v)) as [page|code| |];
    try reflexivity.
  by destruct (length page <? limit).
Qed.

Lemma fetch_children_loop_stateless parent_key rank :
  forall fuel v w w',
    fst <$> fetch_children_loop svc fuel parent_key rank v w
    = fst <$> fetch_children_loop svc fuel parent_key rank v w'.
Proof.
  intros fuel. induction fuel as [|fuel IH]; intros v w w'; [done|].
  cbn [fetch_children_loop].
  pose proof (fetch_children_try_stateless parent_key rank v w w') as Htry.
  destruct (fetch_children_try svc parent_key rank v w) as [[fl v1] w1],
           (fetch_children_try svc parent_key rank v w') as [[fl' v1'] w1'].
  cbn in Htry. injection Htry as -> ->.
  destruct fl'; [done|].
  destruct (RETRY_LIMIT <=? attempt v1'); [done | apply IH].
Qed.

Lemma fetch_lower_levels_stateless fuel lower_levels :
  forall gas current_key current_data current_rank_index rows w w',
    fst <$> fetch_lower_levels svc gas fuel lower_levels current_key current_data
              current_rank_index rows w
    = fst <$> fetch_lower_levels svc gas fuel lower_levels current_key current_data
                current_rank_index rows w'.
Proof.
  intros gas. induction gas as [|gas IH];
    intros current_key current_data current_rank_index rows w w';
    cbn [fetch_lower_levels];
    destruct (length taxonomic_ranks - 1 <=? current_rank_index); try done.
  destruct (taxonomic_ranks !! (current_rank_index + 1)) as [next_rank|]; [|done].
  destruct (bool_decide (next_rank ∈ lower_levels)); [|apply IH].
  pose proof (fetch_children_loop_stateless current_key (rank_name next_rank) fuel
                {| offset := 0; attempt := 0; results := [] |} w w') as Hch.
  fold (fetch_children svc fuel current_key (rank_name next_rank) w) in Hch.
  fold (fetch_children svc fuel current_key (rank_name next_rank) w') in Hch.
  destruct (fetch_children svc fuel current_key (rank_name next_rank) w)
    as [[children w1]|],
    (fetch_children svc fuel current_key (rank_name next_rank) w')
    as [[children' w1']|]; cbn in Hch; try done.
  injection Hch as ->.
  destruct children' as [|child children]; [done|].
  apply for_each_fst. intros x r w2 w2'. apply IH.
Qed.

Lemma process_plant_stateless fuel plant_name input_level levels w w' :
  fst <$> process_plant svc fuel plant_name input_level levels w
  = fst <$> process_plant svc fuel plant_name input_level levels w'.
Proof.
  unfold process_plant, fetch_taxonomy.
  pose proof (fetch_taxonomy_loop_stateless plant_name RETRY_LIMIT 0 w w') as Htax.
  destruct (fetch_taxonomy_loop svc RETRY_LIMIT 0 plant_name w) as [t w1],
           (fetch_taxonomy_loop svc RETRY_LIMIT 0 plant_name w') as [t' w1'].
  cbn in Htax. subst t'.
  destruct (t_key t); [|done].
  destruct (List.filter _ levels) as [|l ls]; [done|].
  match goal with
  | |- context [fetch_lower_levels svc ?g fuel ?ll ?k ?d ?i ?r w1] =>
      pose proof (fetch_lower_levels_stateless fuel ll g k d i r w1 w1') as Hll;
      destruct (fetch_lower_levels svc g fuel ll k d i r w1) as [[rows w2]|],
               (fetch_lower_levels svc g fuel ll k d i r w1') as [[rows' w2']|]
  end; cbn in Hll; try done.
  by injection Hll as ->.
Qed.

Lemma performs_unique fuel input_level levels plant_name task1 task2 :
  performs svc fuel input_level levels plant_name task1 ->
  performs svc fuel input_level levels plant_name task2 ->
  task1 = task2.
Proof.
  intros (w1 & w1' & H1) (w2 & w2' & H2).
  pose proof (process_plant_stateless fuel plant_name input_level levels w1 w2) as Heq.
  rewrite H1, H2 in Heq. by injection Heq.
Qed.

End Stateless.

(** ** The two execution modes *)

Lemma Forall2_Permutation_l {A B} (R : A -> B -> Prop) (l1 l2 : list A) :
  Permutation l1 l2 ->
  forall k1, Forall2 R l1 k1 -> exists k2, Forall2 R l2 k2 /\ Permutation k1 k2.
Proof.
  induction 1 as [|x l1 l2 _ IH|x y l|l1 l2 l3 _ IH1 _ IH2]; intros k1 Hk1.
  - apply Forall2_nil_inv_l in Hk1 as ->. exists []. by split.
  - apply Forall2_cons_inv_l in Hk1 as (b & k & Hb & Hk & ->).
    destruct (IH k Hk) as (k2 & Hk2 & Hperm).
    exists (b :: k2). split; [by constructor | by constructor].
  - apply Forall2_cons_inv_l in Hk1 as (b1 & k & Hb1 & Hk & ->).
    apply Forall2_cons_inv_l in Hk as (b2 & k' & Hb2 & Hk' & ->).
    exists (b2 :: b1 :: k'). split; [by repeat constructor | constructor].
  - destruct (IH1 k1 Hk1) as (k2 & Hk2 & Hp12).
    destruct (IH2 k2 Hk2) as (k3 & Hk3 & Hp23).
    exists k3. split; [done | by etrans].
Qed.

Lemma length_filter_Permutation {A} (f : A -> bool) (l1 l2 : list A) :
  Permutation l1 l2 -> length (List.filter f l1) = length (List.filter f l2).
Proof.
  induction 1 as [|x l1 l2 _ IH|x y l|l1 l2 l3 _ IH1 _ IH2]; cbn [List.filter].
  - done.
  - destruct (f x); cbn [length]; by rewrite IH.
  - by destruct (f x), (f y).
  - by rewrite IH1.
Qed.

Section Modes.

Variable svc : Service.
Variable fuel : nat.
Variable input_level : Rank.
Variable levels : list Rank.
Variable output_format : OutputFormat.

Lemma commit_all_cons task tasks st :
  commit_all input_level levels output_format (task :: tasks) st
  = commit_all input_level levels output_format tasks
      (locked_section input_level levels output_format task st).
Proof. reflexivity. Qed.

Lemma commit_all_snoc tasks task st :
  commit_all input_level levels output_format (tasks ++ [task]) st
  = locked_section input_level levels output_format task (commit_all input_level levels output_format tasks st).
Proof. unfold commit_all. by rewrite foldl_app. Qed.

(** What a list of locked sections leaves behind. *)
Lemma commit_all_closed tasks :
  forall st,
    success_count (commit_all input_level levels output_format tasks st)
      = success_count st + length (List.filter snd tasks)
    /\ failure_count (commit_all input_level levels output_format tasks st)
      = failure_count st + length (List.filter (fun t => negb (snd t)) tasks)
    /\ outfile (commit_all input_level levels output_format tasks st)
      = outfile st
        ++ flat_map (fun t => map (write_row output_format input_level levels) (fst t))
             tasks.
Proof.
  induction tasks as [|[rows ok] tasks IH]; intros st.
  - cbn. by rewrite !Nat.add_0_r, app_nil_r.
  - rewrite commit_all_cons.
    destruct (IH (locked_section input_level levels output_format (rows, ok) st))
      as (Hs & Hf & Ho).
    rewrite Hs, Hf, Ho. cbn [locked_section success_count failure_count outfile
                              List.filter flat_map fst snd].
    destruct ok; cbn [negb length]; rewrite <- app_assoc; repeat split; lia.
Qed.

Lemma commit_all_Permutation tasks1 tasks2 st :
  Permutation tasks1 tasks2 ->
  success_count (commit_all input_level levels output_format tasks1 st) = success_count (commit_all input_level levels output_format tasks2 st)
  /\ failure_count (commit_all input_level levels output_format tasks1 st) = failure_count (commit_all input_level levels output_format tasks2 st)
  /\ Permutation (outfile (commit_all input_level levels output_format tasks1 st)) (outfile (commit_all input_level levels output_format tasks2 st)).
Proof.
  intros Hperm.
  destruct (commit_all_closed tasks1 st) as (-> & -> & ->).
  destruct (commit_all_closed tasks2 st) as (-> & -> & ->).
  rewrite (length_filter_Permutation snd _ _ Hperm).
  rewrite (length_filter_Permutation (fun t => negb (snd t)) _ _ Hperm).
  repeat split. apply Permutation_app_head.
  by apply Permutation_flat_map.
Qed.

(** The sequential mode runs the locked sections in input order. *)
Lemma run_sequential_in_order plant_names :
  forall w st w' st',
    run_sequential svc fuel input_level levels output_format plant_names (w, st)
      = Some (w', st') ->
    exists tasks, Forall2 (performs svc fuel input_level levels) plant_names tasks /\ st' = commit_all input_level levels output_format tasks st.
Proof.
  induction plant_names as [|plant_name plant_names IH]; intros w st w' st' Hrun.
  - injection Hrun as <- <-. exists []. by split.
  - unfold run_sequential in Hrun. cbn [for_each] in Hrun.
    unfold process_and_write in Hrun at 1.
    destruct (process_plant svc fuel plant_name input_level levels w)
      as [[[rows ok] w1]|] eqn:Hpp; [|discriminate Hrun].
    apply IH in Hrun as (tasks & Htasks & ->).
    exists ((rows, ok) :: tasks). split; [|reflexivity].
    constructor; [|exact Htasks]. by exists w, w1.
Qed.

Lemma pool_step_inv max plant_names st0 p p' :
  pool_step svc fuel input_level levels output_format max p p' ->
  pool_inv svc fuel input_level levels output_format plant_names st0 p -> pool_inv svc fuel input_level levels output_format plant_names st0 p'.
Proof.
  intros Hstep (dn & dt & fn & Hperm & Hdone & Hflight & Hshared).
  destruct Hstep as [plant_name queue' tasks w st rows ok w' Hfree Hpp
                    |queue0 tasks1 task tasks2 w st];
    cbn [queue in_flight shared] in *.
  - exists dn, dt, (fn ++ [plant_name]). cbn [queue in_flight shared].
    split; [|split; [done|split; [|done]]].
    + by rewrite <- (app_assoc fn).
    + apply Forall2_app; [done|]. constructor; [|constructor]. by exists w, w'.
  - apply Forall2_app_inv_r in Hflight as (fn1 & fn2' & Hfn1 & Hfn2 & ->).
    apply Forall2_cons_inv_r in Hfn2 as (plant_name & fn2 & Hname & Hfn2 & ->).
    exists (dn ++ [plant_name]), (dt ++ [task]), (fn1 ++ fn2).
    cbn [queue in_flight shared].
    split; [|split; [|split]].
    + rewrite Hperm. rewrite <- !app_assoc. apply Permutation_app_head.
      cbn [app]. symmetry. apply Permutation_middle.
    + apply Forall2_app; [done|]. by repeat constructor.
    + by apply Forall2_app.
    + by rewrite commit_all_snoc, Hshared.
Qed.

Lemma pool_run_in_some_order max plant_names w st0 p :
  rtc (pool_step svc fuel input_level levels output_format max)
    {| queue := plant_names; in_flight := []; net := w; shared := st0 |} p ->
  pool_done p ->
  exists done_names done_tasks,
    Permutation plant_names done_names
    /\ Forall2 (performs svc fuel input_level levels) done_names done_tasks
    /\ shared p = commit_all input_level levels output_format done_tasks st0.
Proof.
  intros Hrun [Hq Hf].
  assert (Hinv : pool_inv svc fuel input_level levels output_format plant_names st0 p).
  { eapply (rtc_ind_r
              (fun p => pool_inv svc fuel input_level levels output_format
                          plant_names st0 p)); [| |exact Hrun].
    - exists [], [], []. cbn [queue in_flight shared app].
      split; [done|]. split; [constructor|]. split; [constructor|done].
    - intros y z _ Hstep Hy. by eapply pool_step_inv. }
  destruct Hinv as (dn & dt & fn & Hperm & Hdone & Hflight & Hshared).
  rewrite Hf in Hflight. apply Forall2_nil_inv_r in Hflight as ->.
  rewrite Hq in Hperm. cbn [app] in Hperm. rewrite app_nil_r in Hperm.
  by exists dn, dt.
Qed.

End Modes.

(** C3.  Against a service with fixed answers, a sequential run and a
    pooled run over the same input end with the same status, that is the
    same success and failure counts, and leave output files that hold the
    same lines up to their order. *)
Theorem pooled_and_sequential_agree
    (svc : Service) (fuel : nat) (env : Env) (input_level : Rank)
    (levels : list Rank) (output_format : OutputFormat) (w : World)
    (final_seq final_pool : Final) :
  stateless svc ->
  process_plant_file svc fuel env input_level levels false output_format w final_seq ->
  process_plant_file svc fuel env input_level levels true output_format w final_pool ->
  status final_seq = status final_pool
  /\ same_rows (file_after final_seq) (file_after final_pool).
Proof.
  intros Hstateless Hseq Hpool.
  destruct Hseq as [Hin|names code Hin Hout|names content w' st' Hin Hout _ Hrun
                   |names content p Hin Hout Hpar _ _]; [| | |discriminate Hpar].
  - destruct Hpool as [_|names' code' Hin' _|names' content' w'' st'' Hin' _ _ _
                      |names' content' p' Hin' _ _ _ _]; cbn [status file_after];
      try congruence.
    split; [done|]. unfold same_rows. by destruct (output_file env).
  - destruct Hpool as [Hin'|names' code' _ Hout'|names' content' w'' st'' _ Hout' _ _
                      |names' content' p' _ Hout' _ _ _]; cbn [status file_after];
      try congruence.
    split; [congruence|]. unfold same_rows. by destruct (output_file env).
  - destruct Hpool as [Hin'|names' code' _ Hout'|names' content' w'' st'' _ _ Hpar _
                      |names' content' p' Hin' Hout' _ Hprun Hdone];
      cbn [status file_after]; try congruence.
    assert (names' = names) as -> by congruence.
    assert (content' = content) as -> by congruence.
    apply run_sequential_in_order in Hrun as (tasks & Htasks & ->).
    apply pool_run_in_some_order in Hprun as (dn & dt & Hperm & Hdt & ->); [|done].
    destruct (Forall2_Permutation_l _ _ _ Hperm _ Htasks) as (dt' & Hdt' & Hperm').
    assert (dt' = dt) as ->.
    { eapply Forall2_unique; [exact Hdt'|exact Hdt|].
      intros x y1 y2. by apply performs_unique. }
    destruct (commit_all_Permutation input_level levels output_format tasks dt
                {| success_count := 0; failure_count := 0; outfile := content |} Hperm')
      as (Hs & Hf & Ho).
    split; [by rewrite Hs, Hf | exact Ho].
Qed.

Lemma svc_demo_stateless : stateless svc_demo.
Proof. split; intros; reflexivity. Qed.

Lemma demo_sequential_run :
  process_plant_file svc_demo 10 demo_env family [genus] false txt w0 demo_final_seq.
Proof.
  exact (ppf_sequential svc_demo 10 demo_env family [genus] false txt w0
           ["Rosaceae"; "Nonexistia"] demo_header
           (net_after demo_final_seq)
           {| success_count := 1; failure_count := 1;
              outfile := match file_after demo_final_seq with
                         | Present content => content
                         | _ => []
                         end |}
           eq_refl eq_refl eq_refl eq_refl).
Qed.

Lemma demo_pooled_run :
  process_plant_file svc_demo 10 demo_env family [genus] true txt w0 demo_final_pool.
Proof.
  refine (ppf_pooled svc_demo 10 demo_env family [genus] true txt w0
            ["Rosaceae"; "Nonexistia"] demo_header demo_pool_4
            eq_refl eq_refl eq_refl _ (conj eq_refl eq_refl)).
  eapply rtc_l with demo_pool_1.
  { refine (pool_start svc_demo 10 family [genus] txt _ "Rosaceae" ["Nonexistia"] []
              w0 demo_start (fst demo_task_rosaceae) true (net demo_pool_1) _ eq_refl).
    vm_compute. lia. }
  eapply rtc_l with demo_pool_2.
  { refine (pool_start svc_demo 10 family [genus] txt _ "Nonexistia" []
              [demo_task_rosaceae] (net demo_pool_1) demo_start
              (fst demo_task_nonexistia) false (net demo_pool_2) _ eq_refl).
    vm_compute. lia. }
  eapply rtc_l with demo_pool_3.
  { exact (pool_commit svc_demo 10 family [genus] txt _ [] [demo_task_rosaceae]
             demo_task_nonexistia [] (net demo_pool_2) demo_start). }
  eapply rtc_l with demo_pool_4.
  { exact (pool_commit svc_demo 10 family [genus] txt _ [] []
             demo_task_rosaceae [] (net demo_pool_2) (shared demo_pool_3)). }
  apply rtc_refl.
Qed.

Lemma pooled_and_sequential_agree_witness :
  status demo_final_seq = status demo_final_pool
  /\ same_rows (file_after demo_final_seq) (file_after demo_final_pool).
Proof.
  apply (pooled_and_sequential_agree svc_demo 10 demo_env family [genus] txt w0).
  - split; intros; reflexivity.
  - exact demo_sequential_run.
  - exact demo_pooled_run.
Defined.

(** ** The claims at the example service *)

Lemma fetch_taxonomy_no_match_returns_at_once_witness :
  fetch_taxonomy svc_demo "Nonexistia" w0
  = (fill_empty_taxonomy "Nonexistia",
     {| clock := 1; log := [GetMatch "Nonexistia"] |}).
Proof.
  apply (fetch_taxonomy_no_match_returns_at_once svc_demo "Nonexistia" w0 no_match_json);
    reflexivity.
Defined.

Lemma unresolved_name_one_row_one_failure_witness :
  exists data : gmap Rank string,
    process_and_write svc_demo 10 family [genus] txt "Nonexistia" (w0, st0)
    = Some ({| clock := 1; log := [GetMatch "Nonexistia"] |},
            {| success_count := success_count st0;
               failure_count := failure_count st0 + 1;
               outfile := outfile st0 ++ [write_row txt family [genus] data] |})
    /\ data !! family = Some "Nonexistia"
    /\ (forall level, level ∈ [genus] -> level ≠ family -> data !! level = Some "")
    /\ (forall level, level ∉ [genus] -> level ≠ family -> data !! level = None)
    /\ row_of family [genus] data
       = "Nonexistia"
         :: map (fun level => if decide (level = family) then "Nonexistia" else "")
              [genus].
Proof.
  apply (unresolved_name_one_row_one_failure svc_demo 10 family [genus] txt
           "Nonexistia" w0 st0 (fill_empty_taxonomy "Nonexistia")
           {| clock := 1; log := [GetMatch "Nonexistia"] |});
    reflexivity.
Defined.

Lemma resolved_without_lower_ranks_one_row_witness :
  exists data : gmap Rank string,
    process_plant svc_demo 10 "Rosaceae" family [kingdom; phylum; order] w0
    = Some ([data], true, {| clock := 1; log := [GetMatch "Rosaceae"] |})
    /\ (forall level, level ∈ [kingdom; phylum; order] ->
          data !! level
          = Some match level with
                 | kingdom => "Plantae"
                 | phylum => "Tracheophyta"
                 | family => "Rosaceae"
                 | class | order | genus | species => "N/A"
                 end)
    /\ (forall body, match_api svc_demo (clock w0) "Rosaceae" = Ok body ->
          forall level, level ∈ [kingdom; phylum; order] ->
            data !! level
            = Some (default "N/A"
                      match level with
                      | kingdom => j_kingdom body
                      | phylum => j_phylum body
                      | class => j_class body
                      | order => j_order body
                      | family => j_family body
                      | genus => j_genus body
                      | species => j_species body
                      end))
    /\ (family ∉ [kingdom; phylum; order] -> data !! family = Some "Rosaceae")
    /\ (forall level, level ∉ [kingdom; phylum; order] -> level ≠ family ->
                      data !! level = None).
Proof.
  apply (resolved_without_lower_ranks_one_row svc_demo 10 family [kingdom; phylum; order]
           "Rosaceae" w0 (taxon_of_match "Rosaceae" (family_json 1 "Rosaceae"))
           {| clock := 1; log := [GetMatch "Rosaceae"] |} 1%Z).
  - reflexivity.
  - reflexivity.
  - intros level Hin. cbn [rank_index].
    apply elem_of_cons in Hin as [->|Hin]; [cbn; lia|].
    apply elem_of_cons in Hin as [->|Hin]; [cbn; lia|].
    apply list_elem_of_singleton in Hin as ->. cbn. lia.
Defined.

Lemma no_children_emits_current_row_witness :
  fetch_lower_levels svc_demo 7 10 [genus] (Some 2%Z) {[family := "Pinaceae"]} 4 []
    {| clock := 1; log := [GetMatch "Pinaceae"] |}
  = Some ([] ++ [{[family := "Pinaceae"]}],
          {| clock := 2; log := [GetMatch "Pinaceae"; GetChildren (Some 2%Z) limit 0] |}).
Proof.
  apply (no_children_emits_current_row svc_demo 10 6 [genus] (Some 2%Z)
           {[family := "Pinaceae"]} 4 [] {| clock := 1; log := [GetMatch "Pinaceae"] |}
           {| clock := 2; log := [GetMatch "Pinaceae"; GetChildren (Some 2%Z) limit 0] |}
           genus).
  - reflexivity.
  - apply list_elem_of_singleton. reflexivity.
  - reflexivity.
Defined.

Lemma exhausted_retries_same_as_no_match_witness :
  fst (fetch_taxonomy svc_timeout "Nonexistia" w0) = fill_empty_taxonomy "Nonexistia"
  /\ fst (fetch_taxonomy svc_demo "Nonexistia" w0) = fill_empty_taxonomy "Nonexistia"
  /\ t_key (fill_empty_taxonomy "Nonexistia") = None
  /\ exists (row : gmap Rank string) (w1' w2' : World) (st' : RunState),
      process_and_write svc_timeout 10 family [genus] txt "Nonexistia" (w0, st0)
        = Some (w1', st')
      /\ process_and_write svc_demo 10 family [genus] txt "Nonexistia" (w0, st0)
        = Some (w2', st')
      /\ outfile st' = outfile st0 ++ [write_row txt family [genus] row]
      /\ row = <[family := "Nonexistia"]>
                 (foldl (fun d level => <[level := ""]> d) ∅ [genus])
      /\ failure_count st' = failure_count st0 + 1
      /\ success_count st' = success_count st0.
Proof.
  apply (exhausted_retries_same_as_no_match svc_timeout svc_demo 10 family [genus]
           txt "Nonexistia" w0 w0 st0 no_match_json).
  - intros i Hi. reflexivity.
  - reflexivity.
  - reflexivity.
Defined.

Lemma conflicting_rank_removed_or_fatal_witness :
  (exists l1 l2,
      [family; genus] = l1 ++ family :: l2
      /\ (family ∉ l1)
      /\ (NoDup [family; genus] -> family ∉ l1 ++ l2)
      /\ check_conflict family [family; genus] = Return (l1 ++ l2)
      /\ main_config demo_args = Return (family, l1 ++ l2)
      /\ forall svc fuel env w final,
          arg_retry demo_args = false ->
          (main svc fuel env demo_args w final
           <-> process_plant_file svc fuel env family (l1 ++ l2)
                 (arg_parallel demo_args) (arg_output_format demo_args) w final))
  /\ (check_conflict family [family] = SysExit 1
      /\ forall svc fuel env w final,
          main svc fuel env demo_args_sole w final
          <-> final = {| status := Exited 1; net_after := w;
                         file_after := output_file env |}).
Proof.
  split.
  - apply (conflicting_rank_removed_or_fatal demo_args "f" ["f"; "g"] family
             [family; genus]); try reflexivity.
    + left.
    + cbn. lia.
  - apply (conflicting_rank_removed_or_fatal demo_args_sole "f" ["f"] family [family]);
      try reflexivity.
    left.
Defined.

(** C7 at a failing input.  "Pinaceae" resolves and has no genus listed.
    With the requested ranks family to genus, the dictionary of its one row
    has no entry for genus; the [json] format writes that dictionary as it
    is, while the [txt] format writes the line with an empty genus field. *)
Theorem json_row_lacks_requested_rank :
  process_plant svc_demo 10 "Pinaceae" family [genus] w0
  = Some ([{[family := "Pinaceae"]}], true,
          {| clock := 2; log := [GetMatch "Pinaceae"; GetChildren (Some 2%Z) limit 0] |})
  /\ ({[family := "Pinaceae"]} : gmap Rank string) !! genus = None
  /\ snd <$> process_and_write svc_demo 10 family [genus] json "Pinaceae" (w0, st0)
     = Some {| success_count := 1; failure_count := 0;
               outfile := [JsonLine {[family := "Pinaceae"]}] |}
  /\ snd <$> process_and_write svc_demo 10 family [genus] txt "Pinaceae" (w0, st0)
     = Some {| success_count := 1; failure_count := 0;
               outfile := [TextLine (String.concat tab ["Pinaceae"; ""] +:+ newline)] |}.
Proof. repeat split. Qed.

(** The input-rank column when the input rank is requested twice: the
    validator drops one occurrence, and the value of the lineage replaces
    the queried name. *)
Lemma duplicate_input_rank_overwrites_name :
  check_conflict family [family; family] = Return [family]
  /\ snd <$> process_and_write svc_demo 10 family [family] txt "rosaceae" (w0, st0)
     = Some {| success_count := 1; failure_count := 0;
               outfile := [TextLine (String.concat tab ["Rosaceae"; "Rosaceae"]
                                     +:+ newline)] |}.
Proof. repeat split. Qed.

(** ** What does hold of every row *)

Lemma for_each_invariant {A S : Type} (body : A -> S -> option S) (I : S -> Prop) :
  (forall x s s', I s -> body x s = Some s' -> I s') ->
  forall l s s', I s -> for_each body l s = Some s' -> I s'.
Proof.
  intros Hbody l. induction l as [|x l IH]; intros s s' Hs Hrun; cbn [for_each] in Hrun.
  - by injection Hrun as <-.
  - destruct (body x s) as [s1|] eqn:Hx; [|discriminate Hrun].
    eapply IH; [|exact Hrun]. by eapply Hbody.
Qed.

Lemma taxonomic_ranks_index i r :
  taxonomic_ranks !! i = Some r -> rank_index r = i.
Proof.
  intros Hi. do 7 (destruct i as [|i]; [by injection Hi as <-|]). discriminate Hi.
Qed.

Section RowFacts.

Variable svc : Service.
Variable fuel : nat.
Variable input_level : Rank.
Variable levels : list Rank.
Variable plant_name : string.

(** The descent writes only at ranks below the input rank, so the entry
    of the input rank stays what it was. *)
Lemma fetch_lower_levels_input_entry lower_levels :
  forall gas current_key current_data current_rank_index rows w rows' w',
    rank_index input_level <= current_rank_index ->
    current_data !! input_level = Some plant_name ->
    Forall (fun d : gmap Rank string => d !! input_level = Some plant_name) rows ->
    fetch_lower_levels svc gas fuel lower_levels current_key current_data
      current_rank_index rows w = Some (rows', w') ->
    Forall (fun d : gmap Rank string => d !! input_level = Some plant_name) rows'.
Proof.
  intros gas. induction gas as [|gas IH];
    intros current_key current_data current_rank_index rows w rows' w'
           Hidx Hdata Hrows Hrun;
    cbn [fetch_lower_levels] in Hrun;
    destruct (length taxonomic_ranks - 1 <=? current_rank_index).
  - injection Hrun as <- <-. apply Forall_app. split; [done | by constructor].
  - discriminate Hrun.
  - injection Hrun as <- <-. apply Forall_app. split; [done | by constructor].
  - destruct (taxonomic_ranks !! (current_rank_index + 1)) as [next_rank|] eqn:Hnext;
      [|discriminate Hrun].
    apply taxonomic_ranks_index in Hnext.
    destruct (bool_decide (next_rank ∈ lower_levels)).
    + destruct (fetch_children svc fuel current_key (rank_name next_rank) w)
        as [[children w1]|]; [|discriminate Hrun].
      destruct children as [|child children].
      * injection Hrun as <- <-. apply Forall_app. split; [done | by constructor].
      * eapply (for_each_invariant _
                  (fun s => Forall (fun d : gmap Rank string =>
                                      d !! input_level = Some plant_name) (fst s)))
          in Hrun; [exact Hrun| |exact Hrows].
        intros x [r1 w2] [r2 w3] Hr1 Hbody. cbn [fst] in *.
        eapply IH; [| |exact Hr1|exact Hbody]; [lia|].
        rewrite lookup_insert_ne; [done|]. intros ->. lia.
    + eapply IH; [| |exact Hrows|exact Hrun]; [lia|done].
Qed.

(** When the input rank is not among the requested ranks, which is what
    the validator leaves unless the rank was given more than once, every
    row of a name holds the queried name at the input rank. *)
Lemma process_plant_input_entry w rows ok w' :
  input_level ∉ levels ->
  process_plant svc fuel plant_name input_level levels w = Some (rows, ok, w') ->
  Forall (fun d : gmap Rank string => d !! input_level = Some plant_name) rows.
Proof.
  intros Hnin Hrun. unfold process_plant in Hrun.
  destruct (fetch_taxonomy svc plant_name w) as [taxonomy w1].
  destruct (t_key taxonomy).
  - set (seed := foldl (fun d level => <[level := taxon_get taxonomy level]> d)
                   {[input_level := plant_name]}
                   (List.filter (fun level => rank_index level <=? rank_index input_level)
                      levels)) in Hrun.
    assert (Hseed : seed !! input_level = Some plant_name).
    { unfold seed. rewrite lookup_foldl_insert, decide_False.
      - by rewrite lookup_singleton_eq.
      - intros Hin%list_elem_of_In%filter_In. apply Hnin, list_elem_of_In, Hin. }
    destruct (List.filter (fun level => rank_index input_level <? rank_index level) levels)
      as [|l ls] eqn:Hlower.
    + injection Hrun as <- <- <-. by constructor.
    + destruct (fetch_lower_levels svc (length taxonomic_ranks) fuel (l :: ls)
                  _ seed (rank_index input_level) [] w1) as [[rows1 w2]|] eqn:Hll;
        [|discriminate Hrun].
      injection Hrun as <- <- <-.
      eapply fetch_lower_levels_input_entry; [| | |exact Hll]; [lia|done|constructor].
  - injection Hrun as <- <- <-. constructor; [|constructor].
    by rewrite lookup_insert_eq.
Qed.

(** A delimited row has one field for the input rank and one for every
    requested rank, whatever the dictionary holds. *)
Lemma row_of_length (data : gmap Rank string) :
  length (row_of input_level levels data) = 1 + length levels.
Proof. unfold row_of. by rewrite length_map. Qed.

End RowFacts.

(** ** The bounds of the model *)

Lemma for_each_ext {A S : Type} (body1 body2 : A -> S -> option S) :
  (forall x s, body1 x s = body2 x s) ->
  forall l s, for_each body1 l s = for_each body2 l s.
Proof.
  intros Hext l. induction l as [|x l IH]; intros s; cbn [for_each]; [done|].
  rewrite Hext. destruct (body2 x s); [apply IH | done].
Qed.

(** The descent takes one call per rank below the current one: with that
    much [gas] the result does not depend on it, and [process_plant] starts
    with more. *)
Lemma fetch_lower_levels_gas svc fuel lower_levels :
  forall gas1 gas2 current_key current_data current_rank_index rows w,
    length taxonomic_ranks - 1 - current_rank_index <= gas1 ->
    length taxonomic_ranks - 1 - current_rank_index <= gas2 ->
    fetch_lower_levels svc gas1 fuel lower_levels current_key current_data
      current_rank_index rows w
    = fetch_lower_levels svc gas2 fuel lower_levels current_key current_data
        current_rank_index rows w.
Proof.
  intros gas1. induction gas1 as [|gas1 IH];
    intros gas2 current_key current_data current_rank_index rows w H1 H2;
    destruct gas2 as [|gas2]; cbn [fetch_lower_levels];
    destruct (length taxonomic_ranks - 1 <=? current_rank_index) eqn:Hend;
    try reflexivity;
    apply Nat.leb_gt in Hend; try lia.
  destruct (taxonomic_ranks !! (current_rank_index + 1)) as [next_rank|]; [|done].
  destruct (bool_decide (next_rank ∈ lower_levels)).
  - destruct (fetch_children svc fuel current_key (rank_name next_rank) w)
      as [[[|child children] w1]|]; try reflexivity.
    apply for_each_ext. intros x [r w2]. apply IH; lia.
  - apply IH; lia.
Qed.

Section PoolRuns.

Variable svc : Service.
Hypothesis svc_stateless : stateless svc.
Variable fuel : nat.
Variable input_level : Rank.
Variable levels : list Rank.
Variable output_format : OutputFormat.

Lemma performs_anywhere plant_name task w :
  performs svc fuel input_level levels plant_name task ->
  exists w', process_plant svc fuel plant_name input_level levels w = Some (task, w').
Proof.
  intros (w1 & w1' & H1).
  pose proof (process_plant_stateless svc svc_stateless fuel plant_name input_level
                levels w1 w) as Heq.
  rewrite H1 in Heq.
  destruct (process_plant svc fuel plant_name input_level levels w) as [[task' w']|];
    [|discriminate Heq].
  injection Heq as ->. by exists w'.
Qed.

(** With at least one worker, the pool can finish whenever every name's
    task returns, for instance by running the names one at a time. *)
Lemma pool_can_finish max plant_names :
  0 < max ->
  forall tasks w st,
    Forall2 (performs svc fuel input_level levels) plant_names tasks ->
    exists p,
      rtc (pool_step svc fuel input_level levels output_format max)
        {| queue := plant_names; in_flight := []; net := w; shared := st |} p
      /\ pool_done p
      /\ shared p = commit_all input_level levels output_format tasks st.
Proof.
  intros Hmax. induction plant_names as [|plant_name plant_names IH];
    intros tasks w st Htasks.
  - apply Forall2_nil_inv_l in Htasks as ->.
    eexists. split; [apply rtc_refl|]. by split.
  - apply Forall2_cons_inv_l in Htasks as (task & tasks' & Htask & Htasks & ->).
    destruct (performs_anywhere _ _ w Htask) as [w1 Hpp].
    destruct (IH tasks' w1 (locked_section input_level levels output_format task st)
                Htasks) as (p & Hrun & Hdone & Hshared).
    exists p. split; [|by split].
    destruct task as [rows ok].
    eapply rtc_l; [by apply (pool_start _ _ _ _ _ _ plant_name plant_names [] w st rows ok w1)|].
    eapply rtc_l; [|exact Hrun].
    exact (pool_commit svc fuel input_level levels output_format max plant_names []
             (rows, ok) [] w1 st).
Qed.

End PoolRuns.

(** * Further properties *)

(** ** The name-match loop *)

Lemma slept_app l1 l2 : slept (l1 ++ l2) = slept l1 + slept l2.
Proof. unfold slept. by rewrite map_app, list_sum_app. Qed.

Lemma slept_sleep delays w : slept (log (sleep delays w)) = slept (log w) + delays.
Proof. cbn [sleep log]. rewrite slept_app. cbn. lia. Qed.

Section ResolverBounds.

Variable svc : Service.
Variable plant_name : string.

(** What one run of the loop adds to the world. *)
Lemma fetch_taxonomy_loop_effects :
  forall remaining attempt w,
    let r := fetch_taxonomy_loop svc remaining attempt plant_name w in
    clock w <= clock (snd r) <= clock w + remaining
    /\ (0 < remaining -> clock w < clock (snd r))
    /\ t_name (fst r) = plant_name
    /\ (exists events, log (snd r) = log w ++ events
                       /\ Forall (match_event plant_name) events)
    /\ 2 * slept (log (snd r))
       <= 2 * slept (log w) + remaining * (2 * attempt + remaining + 3).
Proof.
  intros remaining. induction remaining as [|r IH]; intros attempt w; cbn zeta.
  - cbn [fetch_taxonomy_loop fst snd]. repeat split; try lia; try done.
    exists []. by rewrite app_nil_r.
  - cbn [fetch_taxonomy_loop get_match].
    assert (Hok : forall t, t_name t = plant_name ->
              let res := (t, {| clock := S (clock w);
                                log := log w ++ [GetMatch plant_name] |}) in
              clock w <= clock (snd res) <= clock w + S r
              /\ (0 < S r -> clock w < clock (snd res))
              /\ t_name (fst res) = plant_name
              /\ (exists events, log (snd res) = log w ++ events
                                 /\ Forall (match_event plant_name) events)
              /\ 2 * slept (log (snd res))
                 <= 2 * slept (log w) + S r * (2 * attempt + S r + 3)).
    { intros t Ht. cbn [fst snd clock log]. repeat split; try lia; try done.
      - eexists. split; [reflexivity|]. constructor; [by left | constructor].
      - rewrite slept_app. cbn. nia. }
    assert (Hnext : forall w1 extra,
              clock w1 = S (clock w) ->
              log w1 = log w ++ GetMatch plant_name :: extra ->
              Forall (match_event plant_name) extra ->
              slept extra <= attempt + 2 ->
              let res := fetch_taxonomy_loop svc r (attempt + 1) plant_name w1 in
              clock w <= clock (snd res) <= clock w + S r
              /\ (0 < S r -> clock w < clock (snd res))
              /\ t_name (fst res) = plant_name
              /\ (exists events, log (snd res) = log w ++ events
                                 /\ Forall (match_event plant_name) events)
              /\ 2 * slept (log (snd res))
                 <= 2 * slept (log w) + S r * (2 * attempt + S r + 3)).
    { intros w1 extra Hclock Hlog Hextra Hslept. cbn zeta.
      destruct (IH (attempt + 1) w1) as (Hc & _ & Hn & (events & Hev & Hall) & Hs).
      repeat split; try lia; try done.
      - exists (GetMatch plant_name :: extra ++ events). split.
        + rewrite Hev, Hlog. by rewrite <- app_assoc.
        + constructor; [by left|]. by apply Forall_app.
      - rewrite Hlog, slept_app in Hs.
        change (slept (GetMatch plant_name :: extra)) with (slept extra) in Hs.
        nia. }
    destruct (match_api svc (clock w) plant_name) as [data|code| |].
    + destruct (match_found data); by apply Hok.
    + destruct (code =? 429)%Z.
      * apply (Hnext _ [Sleep (attempt + 1); Sleep 1]); try done.
        -- cbn [sleep log]. by rewrite <- !app_assoc.
        -- repeat (constructor; [right; by eexists|]). constructor.
        -- cbn. lia.
      * apply (Hnext _ [Sleep 1]); try done.
        -- cbn [sleep log]. by rewrite <- !app_assoc.
        -- repeat (constructor; [right; by eexists|]). constructor.
        -- cbn. lia.
    + apply (Hnext _ [Sleep 1]); try done.
      * cbn [sleep log]. by rewrite <- !app_assoc.
      * repeat (constructor; [right; by eexists|]). constructor.
      * cbn. lia.
    + apply (Hnext _ [Sleep 1]); try done.
      * cbn [sleep log]. by rewrite <- !app_assoc.
      * repeat (constructor; [right; by eexists|]). constructor.
      * cbn. lia.
Qed.

(** X1.  A name resolution always returns: it sends at least one and at
    most five requests, all of them name-match requests for the queried
    name, and the taxon it returns carries that name. *)
Theorem fetch_taxonomy_at_most_five_requests (w : World) :
  clock w < clock (snd (fetch_taxonomy svc plant_name w)) <= clock w + RETRY_LIMIT
  /\ t_name (fst (fetch_taxonomy svc plant_name w)) = plant_name
  /\ exists events,
      log (snd (fetch_taxonomy svc plant_name w)) = log w ++ events
      /\ Forall (match_event plant_name) events.
Proof.
  destruct (fetch_taxonomy_loop_effects RETRY_LIMIT 0 w) as (Hc & Hpos & Hn & Hev & _).
  unfold fetch_taxonomy. repeat split; try done; try lia.
  apply Hpos. unfold RETRY_LIMIT. lia.
Qed.

(** X2.  The pauses of one name resolution add up to at most twenty
    request delays, whatever the service answers. *)
Theorem fetch_taxonomy_sleeps_at_most_twenty_delays (w : World) :
  slept (log (snd (fetch_taxonomy svc plant_name w))) <= slept (log w) + 20.
Proof.
  destruct (fetch_taxonomy_loop_effects RETRY_LIMIT 0 w) as (_ & _ & _ & _ & Hs).
  unfold fetch_taxonomy. unfold RETRY_LIMIT in *. lia.
Qed.

(** The loop after [k] failed requests and an answer. *)
Lemma fetch_taxonomy_loop_after_failures :
  forall k remaining attempt w data,
    k < remaining ->
    (forall i, i < k -> is_failure (match_api svc (clock w + i) plant_name) = true) ->
    match_api svc (clock w + k) plant_name = Ok data ->
    fst (fetch_taxonomy_loop svc remaining attempt plant_name w)
      = (if match_found data then taxon_of_match plant_name data
         else fill_empty_taxonomy plant_name)
    /\ clock (snd (fetch_taxonomy_loop svc remaining attempt plant_name w))
       = clock w + k + 1.
Proof.
  intros k. induction k as [|k IH]; intros remaining attempt w data Hk Hfail Hok;
    (destruct remaining as [|r]; [lia|]); cbn [fetch_taxonomy_loop get_match].
  - rewrite Nat.add_0_r in Hok. rewrite Hok.
    destruct (match_found data); cbn [fst snd clock]; split; (reflexivity || lia).
  - assert (Hnext : forall w1, clock w1 = S (clock w) ->
              fst (fetch_taxonomy_loop svc r (attempt + 1) plant_name w1)
                = (if match_found data then taxon_of_match plant_name data
                   else fill_empty_taxonomy plant_name)
              /\ clock (snd (fetch_taxonomy_loop svc r (attempt + 1) plant_name w1))
                 = clock w + S k + 1).
    { intros w1 Hw1. destruct (IH r (attempt + 1) w1 data) as [H1 H2]; try lia.
      - intros i Hi. rewrite Hw1.
        replace (S (clock w) + i) with (clock w + S i) by lia. apply Hfail. lia.
      - rewrite Hw1. replace (S (clock w) + k) with (clock w + S k) by lia. done.
      - split; [done | rewrite H2, Hw1; lia]. }
    pose proof (Hfail 0 ltac:(lia)) as H0. rewrite Nat.add_0_r in H0.
    destruct (match_api svc (clock w) plant_name) as [body|code| |];
      [discriminate H0 | | |]; apply Hnext; try reflexivity.
    by destruct (code =? 429)%Z.
Qed.

(** X3.  Failed requests before an answer leave no trace in the result:
    after fewer than five failures, the first body that arrives decides the
    taxon alone, and the resolution has sent one request per failure and
    one more. *)
Theorem fetch_taxonomy_first_answer_decides
    (k : nat) (w : World) (data : MatchJson) :
  k < RETRY_LIMIT ->
  (forall i, i < k -> is_failure (match_api svc (clock w + i) plant_name) = true) ->
  match_api svc (clock w + k) plant_name = Ok data ->
  fst (fetch_taxonomy svc plant_name w)
    = (if match_found data then taxon_of_match plant_name data
       else fill_empty_taxonomy plant_name)
  /\ clock (snd (fetch_taxonomy svc plant_name w)) = clock w + k + 1.
Proof. intros Hk Hfail Hok. by apply fetch_taxonomy_loop_after_failures. Qed.

End ResolverBounds.

Lemma fetch_taxonomy_first_answer_decides_witness :
  fst (fetch_taxonomy svc_flaky "Rosaceae" w0)
    = (if match_found (family_json 1 "Rosaceae")
       then taxon_of_match "Rosaceae" (family_json 1 "Rosaceae")
       else fill_empty_taxonomy "Rosaceae")
  /\ clock (snd (fetch_taxonomy svc_flaky "Rosaceae" w0)) = clock w0 + 2 + 1.
Proof.
  apply (fetch_taxonomy_first_answer_decides svc_flaky "Rosaceae" 2 w0
           (family_json 1 "Rosaceae")).
  - unfold RETRY_LIMIT. lia.
  - intros i Hi. destruct i as [|[|i]]; [reflexivity | reflexivity | lia].
  - reflexivity.
Defined.

(** The bound of twenty delays is reached by a service that is always over
    its rate limit. *)
Lemma fetch_taxonomy_rate_limited_sleeps_twenty :
  slept (log (snd (fetch_taxonomy svc_rate_limited "Rosaceae" w0))) = 20.
Proof. reflexivity. Qed.

(** X4.  A match whose body has no [usageKey] is handled like a name that
    was not found: its lineage is dropped, the name gets the single row of
    an unresolved name, and the task reports a failure. *)
Theorem match_without_usage_key_is_a_failure
    (svc : Service) (fuel : nat) (input_level : Rank) (levels : list Rank)
    (plant_name : string) (w : World) (data : MatchJson) :
  match_api svc (clock w) plant_name = Ok data ->
  match_found data = true ->
  usageKey data = None ->
  fetch_taxonomy svc plant_name w
    = (taxon_of_match plant_name data,
       {| clock := S (clock w); log := log w ++ [GetMatch plant_name] |})
  /\ process_plant svc fuel plant_name input_level levels w
     = Some ([<[input_level := plant_name]>
                (foldl (fun d level => <[level := ""]> d) ∅ levels)], false,
             {| clock := S (clock w); log := log w ++ [GetMatch plant_name] |}).
Proof.
  intros Hresp Hfound Hkey.
  assert (Hfetch : fetch_taxonomy svc plant_name w
                   = (taxon_of_match plant_name data,
                      {| clock := S (clock w);
                         log := log w ++ [GetMatch plant_name] |})).
  { unfold fetch_taxonomy, RETRY_LIMIT. cbn [fetch_taxonomy_loop get_match].
    by rewrite Hresp, Hfound. }
  split; [exact Hfetch|].
  by apply (process_plant_unresolved svc fuel input_level levels _ _ _ _ Hfetch).
Qed.

Lemma match_without_usage_key_is_a_failure_witness :
  fetch_taxonomy svc_keyless "Rosaceae" w0
    = (taxon_of_match "Rosaceae" keyless_json,
       {| clock := S (clock w0); log := log w0 ++ [GetMatch "Rosaceae"] |})
  /\ process_plant svc_keyless 10 "Rosaceae" family [kingdom; genus] w0
     = Some ([<[family := "Rosaceae"]>
                (foldl (fun d level => <[level := ""]> d) ∅ [kingdom; genus])], false,
             {| clock := S (clock w0); log := log w0 ++ [GetMatch "Rosaceae"] |}).
Proof.
  apply (match_without_usage_key_is_a_failure svc_keyless 10 family [kingdom; genus]
           "Rosaceae" w0 keyless_json); reflexivity.
Defined.

(** ** The children loop *)

Lemma lower_empty s : lower s = "" -> s = "".
Proof. by destruct s. Qed.

Lemma page_results_rank (rank : string) (page : list ChildJson) :
  rank <> "" ->
  Forall (fun c => lower (child_rank c) = lower rank) (page_results rank page).
Proof.
  intros Hrank. unfold page_results. apply Forall_forall.
  intros c (j & <- & Hj%filter_In)%list_elem_of_In%in_map_iff.
  destruct Hj as [_ Hmatch]. unfold rank_matches in Hmatch.
  apply String.eqb_eq in Hmatch. cbn [child_of_json child_rank].
  destruct (c_rank j) as [s|]; [exact Hmatch|].
  cbn [default lower] in Hmatch. symmetry in Hmatch.
  apply lower_empty in Hmatch. done.
Qed.

Lemma map_seq_S {A} (f : nat -> A) (n : nat) :
  map f (seq 0 (S n)) = f 0 :: map (fun i => f (S i)) (seq 0 n).
Proof. cbn [seq map]. by rewrite <- seq_shift, map_map. Qed.

Section ChildrenBounds.

Variable svc : Service.
Variable parent_key : option Z.
Variable rank : string.

Lemma fetch_children_loop_keeps (P : Child -> Prop) :
  (forall page, Forall P (page_results rank page)) ->
  forall fuel v w children w',
    Forall P (results v) ->
    fetch_children_loop svc fuel parent_key rank v w = Some (children, w') ->
    Forall P children.
Proof.
  intros Hpage fuel. induction fuel as [|fuel IH]; intros v w children w' Hv Hrun;
    [discriminate Hrun|].
  cbn [fetch_children_loop] in Hrun. unfold fetch_children_try, get_children in Hrun.
  destruct (children_api svc (clock w) parent_key limit (offset v)) as [page|code| |].
  - assert (Hnew : Forall P (results v ++ page_results rank page))
      by (apply Forall_app; split; [done | apply Hpage]).
    destruct (length page <? limit).
    + by injection Hrun as <- <-.
    + cbn [attempt results] in Hrun.
      destruct (RETRY_LIMIT <=? attempt v); [by injection Hrun as <- <-|].
      by eapply IH; [|exact Hrun].
  - cbn [attempt results] in Hrun.
    destruct (RETRY_LIMIT <=? attempt v + 1); [by injection Hrun as <- <-|].
    by eapply IH; [|exact Hrun].
  - cbn [attempt results] in Hrun.
    destruct (RETRY_LIMIT <=? attempt v + 1); [by injection Hrun as <- <-|].
    by eapply IH; [|exact Hrun].
  - cbn [attempt results] in Hrun.
    destruct (RETRY_LIMIT <=? attempt v + 1); [by injection Hrun as <- <-|].
    by eapply IH; [|exact Hrun].
Qed.

(** X5.  For a requested rank and a service whose rank labels are
    ASCII strings, every child an enumeration returns has the requested
    rank, up to the case of the letters; children of other ranks on a page
    and children without a rank are left out. *)
Theorem fetch_children_only_requested_rank
    (fuel : nat) (w : World) (children : list Child) (w' : World) :
  rank <> "" ->
  is_ascii rank = true ->
  (forall n offset page child,
      children_api svc n parent_key limit offset = Ok page ->
      child ∈ page ->
      is_ascii (default "" (c_rank child)) = true) ->
  fetch_children svc fuel parent_key rank w = Some (children, w') ->
  Forall (fun c => lower (child_rank c) = lower rank) children.
Proof.
  intros Hrank _ _ Hrun. unfold fetch_children in Hrun.
  apply (fetch_children_loop_keeps _ (fun page => page_results_rank rank page Hrank)
           fuel {| offset := 0; attempt := 0; results := [] |} w children w');
    [constructor | exact Hrun].
Qed.

Lemma fetch_children_loop_endless :
  (forall n offset, exists page,
      children_api svc n parent_key limit offset = Ok page /\ limit <= length page) ->
  forall fuel v w,
    attempt v < RETRY_LIMIT ->
    fetch_children_loop svc fuel parent_key rank v w = None.
Proof.
  intros Hfull fuel. induction fuel as [|fuel IH]; intros v w Hatt; [done|].
  cbn [fetch_children_loop].
  destruct (Hfull (clock w) (offset v)) as (page & Hresp & Hlen).
  destruct (fetch_children_try_ok svc parent_key rank v w page Hresp)
    as (w1 & Htry & _).
  rewrite Htry.
  replace (length page <? limit) with false by (symmetry; apply Nat.ltb_ge; lia).
  cbn [attempt].
  replace (RETRY_LIMIT <=? attempt v) with false by (symmetry; apply Nat.leb_gt; lia).
  by apply IH.
Qed.

(** X6.  The page loop has no bound of its own: against a listing whose
    every page is full, the enumeration has not returned after any number
    of requests. *)
Theorem fetch_children_endless_listing_never_returns (fuel : nat) (w : World) :
  (forall n offset, exists page,
      children_api svc n parent_key limit offset = Ok page /\ limit <= length page) ->
  fetch_children svc fuel parent_key rank w = None.
Proof.
  intros Hfull. unfold fetch_children.
  apply fetch_children_loop_endless; [exact Hfull|]. cbn. unfold RETRY_LIMIT. lia.
Qed.

(** The loop over pages that all arrive: full pages, then a short one. *)
Lemma fetch_children_loop_pages :
  forall pages last fuel v w,
    answers svc parent_key (clock w) (offset v) (map Ok pages ++ [Ok last]) ->
    Forall (fun page => limit <= length page) pages ->
    length last < limit ->
    attempt v < RETRY_LIMIT ->
    length pages < fuel ->
    exists w',
      fetch_children_loop svc fuel parent_key rank v w
      = Some (results v ++ flat_map (page_results rank) (pages ++ [last]), w')
      /\ slept (log w') = slept (log w) + 2 * length pages
      /\ requested_offsets (log w')
         = requested_offsets (log w)
           ++ map (fun i => offset v + i * limit) (seq 0 (S (length pages))).
Proof.
  induction pages as [|page pages IH]; intros last fuel v w Hans Hfull Hlast Hatt Hfuel;
    (destruct fuel as [|fuel]; [cbn in Hfuel; lia|]);
    cbn [map app answers] in Hans; destruct Hans as [Hresp Hans];
    cbn [fetch_children_loop]; unfold fetch_children_try, get_children; rewrite Hresp.
  - replace (length last <? limit) with true by (symmetry; apply Nat.ltb_lt; lia).
    eexists. split; [|split].
    + cbn [results app flat_map]. by rewrite app_nil_r.
    + cbn [log]. rewrite slept_app. cbn. lia.
    + cbn [log]. rewrite requested_offsets_app. cbn. do 3 f_equal. lia.
  - apply Forall_cons in Hfull as [Hpage Hfull].
    replace (length page <? limit) with false by (symmetry; apply Nat.ltb_ge; lia).
    cbn [attempt].
    replace (RETRY_LIMIT <=? attempt v) with false by (symmetry; apply Nat.leb_gt; lia).
    set (v' := {| offset := offset v + limit; attempt := attempt v;
                  results := results v ++ page_results rank page |}).
    set (w1 := {| clock := S (clock w);
                  log := log w ++ [GetChildren parent_key limit (offset v)] |}).
    destruct (IH last fuel v' (sleep 1 (sleep 1 w1))) as (w' & Hloop & Hslept & Hoff);
      try done.
    + cbn [length] in Hfuel. lia.
    + exists w'. rewrite Hloop. split; [|split].
      * cbn [results v' app flat_map]. by rewrite <- app_assoc.
      * rewrite Hslept, !slept_sleep. cbn [w1 log length]. rewrite slept_app. cbn. lia.
      * rewrite Hoff, !requested_offsets_sleep. cbn [w1 log offset v' length].
        rewrite requested_offsets_app. cbn [requested_offsets flat_map app].
        rewrite <- app_assoc. f_equal. cbn [app].
        rewrite (map_seq_S (fun i => offset v + i * limit)).
        f_equal; [lia|]. apply map_ext. intros i. lia.
Qed.

(** X7.  When no request fails, the enumeration asks for the offsets 0,
    1000, 2000, ... up to the first page of fewer than 1000 results,
    returns the matching children of all these pages in order, and pauses
    two request delays after each full page. *)
Theorem fetch_children_pages_and_pauses
    (pages : list (list ChildJson)) (last : list ChildJson) (fuel : nat) (w : World) :
  answers svc parent_key (clock w) 0 (map Ok pages ++ [Ok last]) ->
  Forall (fun page => limit <= length page) pages ->
  length last < limit ->
  length pages < fuel ->
  exists w',
    fetch_children svc fuel parent_key rank w
    = Some (flat_map (page_results rank) (pages ++ [last]), w')
    /\ slept (log w') = slept (log w) + 2 * length pages
    /\ requested_offsets (log w')
       = requested_offsets (log w)
         ++ map (fun i => i * limit) (seq 0 (S (length pages))).
Proof.
  intros Hans Hfull Hlast Hfuel. unfold fetch_children.
  apply (fetch_children_loop_pages pages last fuel
           {| offset := 0; attempt := 0; results := [] |} w); try done.
  cbn. unfold RETRY_LIMIT. lia.
Qed.

End ChildrenBounds.

Lemma fetch_children_only_requested_rank_witness :
  Forall (fun c => lower (child_rank c) = lower "genus")
    [child_of_json (genus_json 7 "Rosa L."); child_of_json (genus_json 8 "Rubus L.")].
Proof.
  apply (fetch_children_only_requested_rank svc_demo (Some 1%Z) "genus" 10 w0 _
           {| clock := 1; log := [GetChildren (Some 1%Z) limit 0] |}).
  - discriminate.
  - reflexivity.
  - intros n offset page child Hpage Hin. cbn in Hpage. injection Hpage as <-.
    apply elem_of_cons in Hin as [->|Hin]; [reflexivity|].
    apply elem_of_cons in Hin as [->|Hin]; [reflexivity|].
    apply list_elem_of_singleton in Hin as ->. reflexivity.
  - reflexivity.
Defined.

Lemma fetch_children_endless_listing_never_returns_witness :
  fetch_children svc_endless 50 (Some 1%Z) "genus" w0 = None.
Proof.
  apply (fetch_children_endless_listing_never_returns svc_endless (Some 1%Z) "genus" 50 w0).
  intros n offset. exists full_page. split; [reflexivity|].
  unfold full_page. rewrite repeat_length. lia.
Defined.

Lemma fetch_children_pages_and_pauses_witness :
  exists w',
    fetch_children svc_three_pages 5 (Some 1%Z) "genus" w0
    = Some (flat_map (page_results "genus")
              ([full_page; full_page] ++ [[genus_json 8 "Rubus L."]]), w')
    /\ slept (log w') = slept (log w0) + 2 * length [full_page; full_page]
    /\ requested_offsets (log w')
       = requested_offsets (log w0)
         ++ map (fun i => i * limit) (seq 0 (S (length [full_page; full_page]))).
Proof.
  apply (fetch_children_pages_and_pauses svc_three_pages (Some 1%Z) "genus"
           [full_page; full_page] [genus_json 8 "Rubus L."] 5 w0).
  - vm_compute. repeat split.
  - repeat constructor; unfold full_page; rewrite repeat_length; lia.
  - vm_compute. lia.
  - cbn. lia.
Defined.

(** ** The rank table and the validator *)

Lemma rank_of_abbreviation (a : string) (r : Rank) :
  RANK_ABBREVIATIONS a = Some r <-> a = abbreviation r.
Proof.
  split.
  - unfold RANK_ABBREVIATIONS. intros H.
    repeat match type of H with
           | (if String.eqb a ?s then _ else _) = _ =>
               destruct (String.eqb a s) eqn:E;
               [apply String.eqb_eq in E; subst a; by injection H as <- | clear E]
           end.
    discriminate H.
  - intros ->. by destruct r.
Qed.

(** X8.  The abbreviation table is one-to-one: an abbreviation stands for
    a rank exactly when it is the first letter of that rank's name, and the
    seven ranks are reached in the order of [taxonomic_ranks]. *)
Theorem RANK_ABBREVIATIONS_first_letter (a : string) (r : Rank) :
  (RANK_ABBREVIATIONS a = Some r <-> a = abbreviation r)
  /\ map (fun r => RANK_ABBREVIATIONS (abbreviation r)) taxonomic_ranks
     = map Some taxonomic_ranks.
Proof. split; [apply rank_of_abbreviation | reflexivity]. Qed.

Lemma lookup_levels_abbreviations abbrs levels :
  lookup_levels abbrs = Some levels -> abbrs = map abbreviation levels.
Proof.
  revert levels. induction abbrs as [|a abbrs IH]; intros levels H; cbn [lookup_levels] in H.
  - by injection H as <-.
  - destruct (RANK_ABBREVIATIONS a) as [r|] eqn:Ha; [|discriminate H].
    destruct (lookup_levels abbrs) as [rs|]; [|discriminate H].
    injection H as <-. cbn [map].
    apply rank_of_abbreviation in Ha as ->. by rewrite (IH rs).
Qed.

Lemma occurrences_cons (x y : Rank) (l : list Rank) :
  occurrences x (y :: l) = (if decide (y = x) then 1 else 0) + occurrences x l.
Proof.
  unfold occurrences. cbn [List.filter].
  destruct (decide (y = x)) as [->|Hne].
  - by rewrite bool_decide_eq_true_2.
  - by rewrite bool_decide_eq_false_2.
Qed.

Lemma list_remove_occurrences (x r : Rank) (l : list Rank) :
  x ∈ l ->
  occurrences r (list_remove x l) + (if decide (r = x) then 1 else 0) = occurrences r l.
Proof.
  induction l as [|y l IH]; intros Hin; [by apply elem_of_nil in Hin|].
  cbn [list_remove]. rewrite occurrences_cons.
  destruct (decide (x = y)) as [Heq|Hne].
  - subst y. destruct (decide (x = r)) as [Hxr|Hxr], (decide (r = x)) as [Hrx|Hrx];
      try congruence; lia.
  - apply elem_of_cons in Hin as [?|Hin]; [done|].
    rewrite occurrences_cons, <- (IH Hin). lia.
Qed.

Lemma list_remove_length (x : Rank) (l : list Rank) :
  x ∈ l -> length (list_remove x l) + 1 = length l.
Proof.
  intros Hin. destruct (list_remove_split x l Hin) as (l1 & l2 & -> & _ & ->).
  rewrite !length_app. cbn [length]. lia.
Qed.

(** X9.  The validator ends the run in one case only, a single requested
    rank that is the input rank, and then with status 1. *)
Theorem check_conflict_exits_only_on_sole_conflict
    (input_level : Rank) (levels : list Rank) (code : Z) :
  check_conflict input_level levels = SysExit code
  <-> levels = [input_level] /\ code = 1%Z.
Proof.
  unfold check_conflict. split.
  - destruct (bool_decide (input_level ∈ levels)) eqn:Hin; [|discriminate].
    apply bool_decide_eq_true in Hin.
    destruct levels as [|x [|y levels]]; cbn [length Nat.eqb]; try discriminate.
    intros H. injection H as <-. apply list_elem_of_singleton in Hin as ->. done.
  - intros [-> ->]. rewrite bool_decide_eq_true_2 by (by left). reflexivity.
Qed.

Lemma check_conflict_return
    (input_level : Rank) (levels levels' : list Rank) :
  check_conflict input_level levels = Return levels' ->
  (input_level ∉ levels -> levels' = levels)
  /\ (input_level ∈ levels ->
      length levels' + 1 = length levels
      /\ levels' <> []
      /\ (forall r, occurrences r levels' + (if decide (r = input_level) then 1 else 0)
                    = occurrences r levels)
      /\ (1 < occurrences input_level levels -> input_level ∈ levels')).
Proof.
  unfold check_conflict. intros H. split.
  - intros Hnin. rewrite bool_decide_eq_false_2 in H by done. by injection H as <-.
  - intros Hin. rewrite bool_decide_eq_true_2 in H by done.
    destruct (length levels =? 1) eqn:Hlen; [discriminate H|].
    apply Nat.eqb_neq in Hlen. injection H as <-.
    pose proof (list_remove_length _ _ Hin) as Hl.
    assert (Hocc : forall r,
               occurrences r (list_remove input_level levels)
               + (if decide (r = input_level) then 1 else 0) = occurrences r levels)
      by (intros r; by apply list_remove_occurrences).
    split; [exact Hl|]. split; [|split; [exact Hocc|]].
    + intros Hnil. rewrite Hnil in Hl. cbn in Hl. lia.
    + intros Htwice. specialize (Hocc input_level).
      rewrite decide_True in Hocc by done.
      destruct (decide (input_level ∈ list_remove input_level levels)) as [|Hnin];
        [done|].
      assert (occurrences input_level (list_remove input_level levels) = 0); [|lia].
      unfold occurrences. rewrite filter_none; [done|].
      intros y Hy. apply bool_decide_eq_false_2. by intros ->.
Qed.

(** X10.  When the validator lets the run go on, it has taken away at
    most one entry: nothing if the input rank was not requested, else one
    occurrence of the input rank; every other rank is requested as often as
    before, the list is not empty, and an input rank that was given twice
    is still in it. *)
Theorem check_conflict_drops_one_occurrence
    (input_level : Rank) (levels levels' : list Rank) :
  check_conflict input_level levels = Return levels' ->
  (input_level ∉ levels -> levels' = levels)
  /\ (input_level ∈ levels ->
      length levels' + 1 = length levels
      /\ levels' <> []
      /\ (forall r, occurrences r levels' + (if decide (r = input_level) then 1 else 0)
                    = occurrences r levels)
      /\ (1 < occurrences input_level levels -> input_level ∈ levels')).
Proof. apply check_conflict_return. Qed.

Lemma check_conflict_drops_one_occurrence_witness :
  (family ∉ [family; genus; family] -> [genus; family] = [family; genus; family])
  /\ (family ∈ [family; genus; family] ->
      length [genus; family] + 1 = length [family; genus; family]
      /\ [genus; family] <> []
      /\ (forall r, occurrences r [genus; family] + (if decide (r = family) then 1 else 0)
                    = occurrences r [family; genus; family])
      /\ (1 < occurrences family [family; genus; family] -> family ∈ [genus; family])).
Proof.
  apply (check_conflict_drops_one_occurrence family [family; genus; family]
           [genus; family]).
  reflexivity.
Defined.

(** ** The command line *)

(** X11.  When [main] goes on to process names, at least one output rank
    is left; and if no abbreviation was given twice, the output ranks are
    distinct and the input rank is not among them. *)
Theorem main_config_levels
    (args : Args) (input_level : Rank) (levels : list Rank) :
  main_config args = Return (input_level, levels) ->
  levels <> []
  /\ arg_in_level args = Some (abbreviation input_level)
  /\ (forall abbrs, arg_out_level args = Some abbrs -> NoDup abbrs ->
                    NoDup levels /\ input_level ∉ levels).
Proof.
  unfold main_config. intros H.
  destruct (negb (parse_args_ok args)); [discriminate H|].
  destruct (arg_in_level args) as [a|]; [|discriminate H].
  destruct (RANK_ABBREVIATIONS a) as [r|] eqn:Ha; [|discriminate H].
  destruct (arg_out_level args) as [[|b abbrs]|]; try discriminate H.
  destruct (lookup_levels (b :: abbrs)) as [ls|] eqn:Hls; [|discriminate H].
  destruct (check_conflict r ls) as [code|levels'] eqn:Hcheck; [discriminate H|].
  injection H as -> ->.
  apply rank_of_abbreviation in Ha as ->.
  pose proof (lookup_levels_abbreviations _ _ Hls) as Hmap.
  assert (Hne : ls <> []) by (intros ->; discriminate Hmap).
  destruct (check_conflict_return _ _ _ Hcheck) as [Hout Hin].
  split; [|split; [done|]].
  - destruct (decide (input_level ∈ ls)) as [Hi|Hi].
    + by destruct (Hin Hi) as (_ & ? & _).
    + by rewrite (Hout Hi).
  - intros abbrs' [= <-] Hnd. rewrite Hmap in Hnd.
    apply (NoDup_fmap_1 abbreviation) in Hnd.
    destruct (decide (input_level ∈ ls)) as [Hi|Hi]; [|by rewrite (Hout Hi)].
    unfold check_conflict in Hcheck. rewrite bool_decide_eq_true_2 in Hcheck by done.
    destruct (length ls =? 1); [discriminate Hcheck|]. injection Hcheck as <-.
    destruct (list_remove_split _ _ Hi) as (l1 & l2 & -> & Hl1 & ->).
    apply NoDup_app in Hnd as (Hnd1 & Hdisj & [Hl2 Hnd2]%NoDup_cons).
    split.
    + apply NoDup_app. split; [done|]. split; [|done].
      intros x Hx1 Hx2. apply (Hdisj x Hx1). by right.
    + intros [?|?]%elem_of_app; done.
Qed.

Lemma main_config_levels_witness :
  [genus] <> []
  /\ arg_in_level demo_args = Some (abbreviation family)
  /\ (forall abbrs, arg_out_level demo_args = Some abbrs -> NoDup abbrs ->
                    NoDup [genus] /\ family ∉ [genus]).
Proof.
  apply (main_config_levels demo_args family [genus]). reflexivity.
Defined.

(** X12.  With [-retry] the program does nothing beyond checking its
    arguments: no request is sent and the output file is not touched; the
    run still exits on arguments the validator rejects. *)
Theorem retry_flag_sends_nothing
    (svc : Service) (fuel : nat) (env : Env) (args : Args) (w : World) (final : Final) :
  arg_retry args = true ->
  main svc fuel env args w final ->
  net_after final = w
  /\ file_after final = output_file env
  /\ status final = match main_config args with
                    | SysExit code => Exited code
                    | Return _ => NothingDone
                    end.
Proof.
  intros Hretry Hrun.
  destruct Hrun as [code Hc|il ls Hc _|il ls fin Hc Hr _]; [| |congruence];
    rewrite Hc; by cbn.
Qed.

Lemma retry_flag_sends_nothing_witness :
  net_after {| status := NothingDone; net_after := w0; file_after := Missing |} = w0
  /\ file_after {| status := NothingDone; net_after := w0; file_after := Missing |}
     = output_file demo_env
  /\ status {| status := NothingDone; net_after := w0; file_after := Missing |}
     = match main_config demo_args_retry with
       | SysExit code => Exited code
       | Return _ => NothingDone
       end.
Proof.
  apply (retry_flag_sends_nothing svc_demo 10 demo_env demo_args_retry w0).
  - reflexivity.
  - exact (main_retry svc_demo 10 demo_env demo_args_retry w0 family [genus; species]
             eq_refl eq_refl).
Defined.

(** ** The rows of one name *)

Section RowShape.

Variable svc : Service.
Variable fuel : nat.

(** What a descent adds: at least one row, after the rows it was given,
    and every new row agrees with the row it started from at the ranks not
    below the current one and at the ranks that are not requested. *)
Lemma fetch_lower_levels_rows lower_levels :
  forall gas current_key (current_data : gmap Rank string) current_rank_index rows w
         rows' w',
    fetch_lower_levels svc gas fuel lower_levels current_key current_data
      current_rank_index rows w = Some (rows', w') ->
    exists new,
      rows' = rows ++ new
      /\ new <> []
      /\ Forall (fun d : gmap Rank string =>
                   forall k, rank_index k <= current_rank_index \/ k ∉ lower_levels ->
                             d !! k = current_data !! k) new.
Proof.
  intros gas. induction gas as [|gas IH];
    intros current_key current_data current_rank_index rows w rows' w' Hrun;
    cbn [fetch_lower_levels] in Hrun;
    destruct (length taxonomic_ranks - 1 <=? current_rank_index).
  1,3: injection Hrun as <- <-; exists [current_data];
       split; [done|]; split; [done|]; by repeat constructor.
  - discriminate Hrun.
  - destruct (taxonomic_ranks !! (current_rank_index + 1)) as [next_rank|] eqn:Hnext;
      [|discriminate Hrun].
    apply taxonomic_ranks_index in Hnext.
    destruct (bool_decide (next_rank ∈ lower_levels)) eqn:Hreq.
    + apply bool_decide_eq_true in Hreq.
      destruct (fetch_children svc fuel current_key (rank_name next_rank) w)
        as [[children w1]|]; [|discriminate Hrun].
      destruct children as [|child children].
      { injection Hrun as <- <-. exists [current_data].
        split; [done|]. split; [done|]. by repeat constructor. }
      assert (Hbody : forall (x : Child) r1 w2 r2 w3,
                 fetch_lower_levels svc gas fuel lower_levels (child_key x)
                   (<[next_rank := child_name x]> current_data)
                   (current_rank_index + 1) r1 w2 = Some (r2, w3) ->
                 exists new,
                   r2 = r1 ++ new /\ new <> []
                   /\ Forall (fun d : gmap Rank string =>
                                forall k, rank_index k <= current_rank_index
                                          \/ k ∉ lower_levels ->
                                          d !! k = current_data !! k) new).
      { intros x r1 w2 r2 w3 Hx.
        apply IH in Hx as (new & -> & Hne & Hall).
        exists new. split; [done|]. split; [done|].
        eapply Forall_impl; [exact Hall|]. intros d Hd k Hk. cbn beta in Hd.
        rewrite Hd by (destruct Hk; [left; lia | by right]).
        apply lookup_insert_ne. intros ->. destruct Hk as [Hk|Hk]; [lia | done]. }
      cbn [for_each] in Hrun.
      destruct (fetch_lower_levels svc gas fuel lower_levels (child_key child)
                  (<[next_rank := child_name child]> current_data)
                  (current_rank_index + 1) rows w1) as [[r1 w2]|] eqn:Hfirst;
        [|discriminate Hrun].
      apply Hbody in Hfirst.
      eapply (for_each_invariant _
                (fun s => exists new,
                     fst s = rows ++ new /\ new <> []
                     /\ Forall (fun d : gmap Rank string =>
                                  forall k, rank_index k <= current_rank_index
                                            \/ k ∉ lower_levels ->
                                            d !! k = current_data !! k) new))
        in Hrun; [exact Hrun| |exact Hfirst].
      intros x [ra wa] [rb wb] (new1 & Hra & Hne1 & Hall1) Hx. cbn [fst] in *. subst ra.
      apply Hbody in Hx as (new2 & -> & Hne2 & Hall2).
      exists (new1 ++ new2). split; [by rewrite app_assoc|]. split.
      * by destruct new1.
      * by apply Forall_app.
    + apply bool_decide_eq_false in Hreq.
      apply IH in Hrun as (new & -> & Hne & Hall).
      exists new. split; [done|]. split; [done|].
      eapply Forall_impl; [exact Hall|]. intros d Hd k Hk. cbn beta in Hd.
      apply Hd. destruct Hk; [left; lia | by right].
Qed.

Variable input_level : Rank.
Variable levels : list Rank.
Variable plant_name : string.

(** The rows of a resolved name, against the row the descent starts from. *)
Lemma process_plant_resolved_rows w taxonomy w1 key rows ok w' :
  fetch_taxonomy svc plant_name w = (taxonomy, w1) ->
  t_key taxonomy = Some key ->
  process_plant svc fuel plant_name input_level levels w = Some (rows, ok, w') ->
  ok = true
  /\ rows <> []
  /\ Forall (fun d : gmap Rank string =>
               forall k, rank_index k <= rank_index input_level \/ k ∉ levels ->
                         d !! k = seed_row taxonomy plant_name input_level levels !! k)
       rows.
Proof.
  intros Hfetch Hkey Hrun. unfold process_plant in Hrun. rewrite Hfetch, Hkey in Hrun.
  fold (seed_row taxonomy plant_name input_level levels) in Hrun.
  destruct (List.filter (fun level => rank_index input_level <? rank_index level) levels)
    as [|l ls] eqn:Hlower.
  - injection Hrun as <- <- <-. split; [done|]. split; [done|]. by repeat constructor.
  - destruct (fetch_lower_levels svc (length taxonomic_ranks) fuel (l :: ls) (Some key)
                (seed_row taxonomy plant_name input_level levels)
                (rank_index input_level) [] w1) as [[rows1 w2]|] eqn:Hll;
      [|discriminate Hrun].
    injection Hrun as <- <- <-.
    apply fetch_lower_levels_rows in Hll as (new & -> & Hne & Hall).
    split; [done|]. split; [done|]. cbn [app].
    eapply Forall_impl; [exact Hall|]. intros d Hd k Hk. cbn beta in Hd.
    apply Hd. destruct Hk as [Hk|Hk]; [by left|right].
    rewrite <- Hlower. intros Hin%list_elem_of_In%filter_In. apply Hk, list_elem_of_In, Hin.
Qed.

Lemma seed_row_lookup taxonomy k :
  seed_row taxonomy plant_name input_level levels !! k
  = if decide (k ∈ levels /\ rank_index k <= rank_index input_level)
    then Some (taxon_get taxonomy k)
    else if decide (k = input_level) then Some plant_name else None.
Proof.
  unfold seed_row. rewrite lookup_foldl_insert.
  destruct (decide (k ∈ List.filter
                          (fun level => rank_index level <=? rank_index input_level)
                          levels)) as [Hin|Hnin].
  - apply list_elem_of_In, filter_In in Hin as [Hin Hle].
    apply list_elem_of_In in Hin. apply Nat.leb_le in Hle.
    by rewrite decide_True.
  - rewrite decide_False.
    + destruct (decide (k = input_level)) as [->|Hne].
      * by rewrite lookup_singleton_eq.
      * by rewrite lookup_singleton_ne.
    + intros [Hin Hle]. apply Hnin, list_elem_of_In, filter_In.
      split; [by apply list_elem_of_In | by apply Nat.leb_le].
Qed.

(** X13.  Every name gets at least one row, and its task reports a
    success exactly when the taxon that came back has a key; failed or
    empty children listings do not turn a resolved name into a failure. *)
Theorem process_plant_rows_and_flag
    (w : World) (rows : list (gmap Rank string)) (ok : bool) (w' : World) :
  process_plant svc fuel plant_name input_level levels w = Some (rows, ok, w') ->
  rows <> []
  /\ (ok = true <-> is_Some (t_key (fst (fetch_taxonomy svc plant_name w)))).
Proof.
  intros Hrun.
  destruct (fetch_taxonomy svc plant_name w) as [taxonomy w1] eqn:Hfetch. cbn [fst].
  destruct (t_key taxonomy) as [key|] eqn:Hkey.
  - destruct (process_plant_resolved_rows _ _ _ _ _ _ _ Hfetch Hkey Hrun) as (-> & Hne & _).
    split; [done|]. split; [by eexists | done].
  - rewrite (process_plant_unresolved svc fuel input_level levels _ _ _ _ Hfetch Hkey)
      in Hrun.
    injection Hrun as <- <- <-. split; [done|]. split; [done|]. by intros [? ?].
Qed.

(** X14.  A row never holds a rank that was not asked for: its keys are
    the input rank and requested output ranks only. *)
Theorem rows_hold_only_requested_ranks
    (w : World) (rows : list (gmap Rank string)) (ok : bool) (w' : World) :
  process_plant svc fuel plant_name input_level levels w = Some (rows, ok, w') ->
  Forall (fun d : gmap Rank string =>
            forall k, is_Some (d !! k) -> k = input_level \/ k ∈ levels) rows.
Proof.
  intros Hrun.
  destruct (fetch_taxonomy svc plant_name w) as [taxonomy w1] eqn:Hfetch.
  destruct (t_key taxonomy) as [key|] eqn:Hkey.
  - destruct (process_plant_resolved_rows _ _ _ _ _ _ _ Hfetch Hkey Hrun) as (_ & _ & Hall).
    eapply Forall_impl; [exact Hall|]. intros d Hd k Hsome. cbn beta in Hd.
    destruct (decide (k = input_level)) as [|Hne]; [by left|].
    destruct (decide (k ∈ levels)) as [|Hnin]; [by right|].
    rewrite Hd, seed_row_lookup in Hsome by (by right).
    rewrite decide_False, decide_False in Hsome by tauto.
    by destruct Hsome.
  - rewrite (process_plant_unresolved svc fuel input_level levels _ _ _ _ Hfetch Hkey)
      in Hrun.
    injection Hrun as <- <- <-. constructor; [|constructor].
    intros k Hsome. rewrite lookup_unresolved_row in Hsome.
    destruct (decide (k = input_level)); [by left|].
    destruct (decide (k ∈ levels)); [by right | by destruct Hsome].
Qed.

(** X15.  Every row of a resolved name, however far its descent went,
    holds the value of the resolved lineage at each requested rank that is
    not below the input rank. *)
Theorem rows_carry_lineage_at_higher_ranks
    (w : World) (taxonomy : Taxon) (w1 : World) (key : Z)
    (rows : list (gmap Rank string)) (ok : bool) (w' : World) :
  fetch_taxonomy svc plant_name w = (taxonomy, w1) ->
  t_key taxonomy = Some key ->
  process_plant svc fuel plant_name input_level levels w = Some (rows, ok, w') ->
  Forall (fun d : gmap Rank string =>
            forall level, level ∈ levels ->
                          rank_index level <= rank_index input_level ->
                          d !! level = Some (taxon_get taxonomy level)) rows.
Proof.
  intros Hfetch Hkey Hrun.
  destruct (process_plant_resolved_rows _ _ _ _ _ _ _ Hfetch Hkey Hrun) as (_ & _ & Hall).
  eapply Forall_impl; [exact Hall|]. intros d Hd level Hin Hle. cbn beta in Hd.
  rewrite Hd, seed_row_lookup by (by left). by rewrite decide_True.
Qed.

End RowShape.

Lemma rows_carry_lineage_at_higher_ranks_witness :
  Forall (fun d : gmap Rank string =>
            forall level, level ∈ [kingdom; genus] ->
                          rank_index level <= rank_index family ->
                          d !! level
                          = Some (taxon_get (taxon_of_match "Rosaceae"
                                               (family_json 1 "Rosaceae")) level))
    [<[genus := "Rosa L."]> (<[kingdom := "Plantae"]> {[family := "Rosaceae"]});
     <[genus := "Rubus L."]> (<[kingdom := "Plantae"]> {[family := "Rosaceae"]})].
Proof.
  apply (rows_carry_lineage_at_higher_ranks svc_demo 10 family [kingdom; genus]
           "Rosaceae" w0 (taxon_of_match "Rosaceae" (family_json 1 "Rosaceae"))
           {| clock := 1; log := [GetMatch "Rosaceae"] |} 1%Z _ true
           {| clock := 2; log := [GetMatch "Rosaceae"; GetChildren (Some 1%Z) limit 0] |});
    reflexivity.
Defined.

Lemma process_plant_rows_and_flag_witness :
  [<[genus := "Rosa L."]> ({[family := "Rosaceae"]} : gmap Rank string);
   <[genus := "Rubus L."]> {[family := "Rosaceae"]}] <> []
  /\ (true = true <-> is_Some (t_key (fst (fetch_taxonomy svc_demo "Rosaceae" w0)))).
Proof.
  apply (process_plant_rows_and_flag svc_demo 10 family [genus] "Rosaceae" w0 _ true
           {| clock := 2; log := [GetMatch "Rosaceae"; GetChildren (Some 1%Z) limit 0] |}).
  reflexivity.
Defined.

Lemma rows_hold_only_requested_ranks_witness :
  Forall (fun d : gmap Rank string =>
            forall k, is_Some (d !! k) -> k = family \/ k ∈ [genus])
    [<[genus := "Rosa L."]> ({[family := "Rosaceae"]} : gmap Rank string);
     <[genus := "Rubus L."]> {[family := "Rosaceae"]}].
Proof.
  apply (rows_hold_only_requested_ranks svc_demo 10 family [genus] "Rosaceae" w0 _ true
           {| clock := 2; log := [GetMatch "Rosaceae"; GetChildren (Some 1%Z) limit 0] |}).
  reflexivity.
Defined.

(** X16.  When the input rank is not among the requested ranks, every
    row of a name holds the queried name at the input rank, and the fields
    of its delimited line are that name followed by one field for each
    requested rank. *)
Theorem rows_start_with_the_queried_name
    (svc : Service) (fuel : nat) (input_level : Rank) (levels : list Rank)
    (plant_name : string) (w : World) (rows : list (gmap Rank string)) (ok : bool)
    (w' : World) :
  input_level ∉ levels ->
  process_plant svc fuel plant_name input_level levels w = Some (rows, ok, w') ->
  Forall (fun d : gmap Rank string =>
            d !! input_level = Some plant_name
            /\ exists fields, row_of input_level levels d = plant_name :: fields
                              /\ length fields = length levels) rows.
Proof.
  intros Hnin Hrun.
  pose proof (process_plant_input_entry svc fuel input_level levels plant_name
                w rows ok w' Hnin Hrun) as Hall.
  eapply Forall_impl; [exact Hall|]. intros d Hd. cbn beta in Hd.
  split; [exact Hd|]. unfold row_of. cbn [app map]. rewrite Hd. cbn [default].
  eexists. split; [reflexivity|]. by rewrite length_map.
Qed.

Lemma rows_start_with_the_queried_name_witness :
  Forall (fun d : gmap Rank string =>
            d !! family = Some "Rosaceae"
            /\ exists fields, row_of family [genus] d = "Rosaceae" :: fields
                              /\ length fields = length [genus])
    [<[genus := "Rosa L."]> ({[family := "Rosaceae"]} : gmap Rank string);
     <[genus := "Rubus L."]> {[family := "Rosaceae"]}].
Proof.
  apply (rows_start_with_the_queried_name svc_demo 10 family [genus] "Rosaceae" w0 _ true
           {| clock := 2; log := [GetMatch "Rosaceae"; GetChildren (Some 1%Z) limit 0] |}).
  - intros Hin. apply list_elem_of_singleton in Hin. discriminate Hin.
  - reflexivity.
Defined.

Section OneLowerRank.

Variable svc : Service.
Variable fuel : nat.
Variable lower_levels : list Rank.

(** A descent with nothing requested below the current rank sends no
    request and adds the row as it stands. *)
Lemma fetch_lower_levels_nothing_requested :
  forall gas current_key (current_data : gmap Rank string) current_rank_index rows w,
    (forall l, l ∈ lower_levels -> rank_index l <= current_rank_index) ->
    length taxonomic_ranks - 1 - current_rank_index <= gas ->
    fetch_lower_levels svc gas fuel lower_levels current_key current_data
      current_rank_index rows w
    = Some (rows ++ [current_data], w).
Proof.
  intros gas. induction gas as [|gas IH];
    intros current_key current_data current_rank_index rows w Hnone Hgas;
    cbn [fetch_lower_levels];
    destruct (length taxonomic_ranks - 1 <=? current_rank_index) eqn:Hend;
    try reflexivity; apply Nat.leb_gt in Hend; [lia|].
  destruct (taxonomic_ranks !! (current_rank_index + 1)) as [next_rank|] eqn:Hnext.
  - apply taxonomic_ranks_index in Hnext.
    rewrite bool_decide_eq_false_2
      by (intros Hin; apply Hnone in Hin; lia).
    apply IH; [|lia]. intros l Hl. apply Hnone in Hl. lia.
  - apply lookup_ge_None in Hnext. cbn [length taxonomic_ranks] in *. lia.
Qed.

Lemma for_each_one_row_per_child (body : Child -> list (gmap Rank string) * World
                                        -> option (list (gmap Rank string) * World))
    (row : Child -> gmap Rank string) :
  (forall child rows w, body child (rows, w) = Some (rows ++ [row child], w)) ->
  forall children rows w,
    for_each body children (rows, w) = Some (rows ++ map row children, w).
Proof.
  intros Hbody children. induction children as [|child children IH]; intros rows w;
    cbn [for_each map].
  - by rewrite app_nil_r.
  - rewrite Hbody, IH. by rewrite <- app_assoc.
Qed.

(** A descent towards the only requested rank [r]: the ranks in between
    are passed over without a request, and the children of rank [r] are
    those of the taxon the descent started from. *)
Lemma fetch_lower_levels_one_rank (r : Rank) :
  r ∈ lower_levels ->
  (forall l, l ∈ lower_levels -> l = r) ->
  forall gas current_key (current_data : gmap Rank string) current_rank_index rows w
         children w1,
    current_rank_index < rank_index r ->
    length taxonomic_ranks - 1 - current_rank_index <= gas ->
    fetch_children svc fuel current_key (rank_name r) w = Some (children, w1) ->
    fetch_lower_levels svc gas fuel lower_levels current_key current_data
      current_rank_index rows w
    = Some (rows ++ match children with
                    | [] => [current_data]
                    | _ => map (fun child => <[r := child_name child]> current_data)
                             children
                    end, w1).
Proof.
  intros Hr Honly gas. induction gas as [|gas IH];
    intros current_key current_data current_rank_index rows w children w1
           Hidx Hgas Hch;
    pose proof (rank_index_lookup r) as Hlook;
    pose proof (lookup_lt_Some _ _ _ Hlook) as Hlt; cbn [length taxonomic_ranks] in *;
    cbn [fetch_lower_levels];
    replace (length taxonomic_ranks - 1 <=? current_rank_index) with false
      by (symmetry; apply Nat.leb_gt; cbn; lia); [lia|].
  destruct (taxonomic_ranks !! (current_rank_index + 1)) as [next_rank|] eqn:Hnext;
    [|apply lookup_ge_None in Hnext; cbn [length taxonomic_ranks] in Hnext; lia].
  pose proof (taxonomic_ranks_index _ _ Hnext) as Hni.
  destruct (decide (next_rank = r)) as [->|Hne].
  - rewrite bool_decide_eq_true_2 by done. rewrite Hch.
    destruct children as [|child children]; [reflexivity|].
    apply (for_each_one_row_per_child _
             (fun child => <[r := child_name child]> current_data)).
    intros x rows' w'.
    apply fetch_lower_levels_nothing_requested; [|cbn [length taxonomic_ranks]; lia].
    intros l Hl. apply Honly in Hl as ->. lia.
  - rewrite bool_decide_eq_false_2 by (intros Hin; by apply Honly in Hin).
    apply IH; [|cbn [length taxonomic_ranks]; lia|done].
    destruct (decide (current_rank_index + 1 = rank_index r)) as [Heq|]; [|lia].
    rewrite Heq, Hlook in Hnext. by injection Hnext.
Qed.

End OneLowerRank.

(** X17.  With a single requested rank [r] below the input rank, a
    resolved name is expanded in one enumeration: the children of rank [r]
    of the resolved taxon itself, whatever ranks lie in between.  Each child
    gives one row, in the order of the listing, with its name at [r]; an
    empty listing gives the one row without [r]. *)
Theorem process_plant_one_lower_rank
    (svc : Service) (fuel : nat) (input_level : Rank) (levels : list Rank)
    (plant_name : string) (w : World) (taxonomy : Taxon) (w1 : World) (key : Z)
    (r : Rank) (children : list Child) (w2 : World) :
  fetch_taxonomy svc plant_name w = (taxonomy, w1) ->
  t_key taxonomy = Some key ->
  r ∈ levels ->
  rank_index input_level < rank_index r ->
  (forall l, l ∈ levels -> rank_index input_level < rank_index l -> l = r) ->
  fetch_children svc fuel (Some key) (rank_name r) w1 = Some (children, w2) ->
  process_plant svc fuel plant_name input_level levels w
  = Some (match children with
          | [] => [seed_row taxonomy plant_name input_level levels]
          | _ => map (fun child => <[r := child_name child]>
                                     (seed_row taxonomy plant_name input_level levels))
                   children
          end, true, w2).
Proof.
  intros Hfetch Hkey Hr Hbelow Honly Hch. unfold process_plant.
  rewrite Hfetch, Hkey.
  fold (seed_row taxonomy plant_name input_level levels).
  set (lower := List.filter (fun level => rank_index input_level <? rank_index level)
                  levels).
  assert (Hin : r ∈ lower).
  { apply list_elem_of_In, filter_In. split; [by apply list_elem_of_In|].
    by apply Nat.ltb_lt. }
  assert (Hall : forall l, l ∈ lower -> l = r).
  { intros l [Hl Hlt%Nat.ltb_lt]%list_elem_of_In%filter_In.
    apply Honly; [by apply list_elem_of_In | done]. }
  rewrite (fetch_lower_levels_one_rank svc fuel lower r Hin Hall
             (length taxonomic_ranks) (Some key)
             (seed_row taxonomy plant_name input_level levels) (rank_index input_level)
             [] w1 children w2 Hbelow ltac:(cbn [length taxonomic_ranks]; lia) Hch).
  destruct lower as [|l ls]; [by apply elem_of_nil in Hin | reflexivity].
Qed.

Lemma process_plant_one_lower_rank_witness :
  process_plant svc_demo 10 "Rosaceae" family [kingdom; genus] w0
  = Some (match [child_of_json (genus_json 7 "Rosa L.");
                 child_of_json (genus_json 8 "Rubus L.")] with
          | [] => [seed_row (taxon_of_match "Rosaceae" (family_json 1 "Rosaceae"))
                     "Rosaceae" family [kingdom; genus]]
          | _ => map (fun child =>
                        <[genus := child_name child]>
                          (seed_row (taxon_of_match "Rosaceae" (family_json 1 "Rosaceae"))
                             "Rosaceae" family [kingdom; genus]))
                   [child_of_json (genus_json 7 "Rosa L.");
                    child_of_json (genus_json 8 "Rubus L.")]
          end, true,
          {| clock := 2; log := [GetMatch "Rosaceae"; GetChildren (Some 1%Z) limit 0] |}).
Proof.
  apply (process_plant_one_lower_rank svc_demo 10 family [kingdom; genus] "Rosaceae" w0
           (taxon_of_match "Rosaceae" (family_json 1 "Rosaceae"))
           {| clock := 1; log := [GetMatch "Rosaceae"] |} 1%Z genus).
  - reflexivity.
  - reflexivity.
  - right. left.
  - cbn. lia.
  - intros l Hl Hlt. apply elem_of_cons in Hl as [->|Hl].
    + cbn in Hlt. lia.
    + by apply list_elem_of_singleton in Hl.
  - reflexivity.
Defined.

(** ** Whole runs *)

Lemma filter_split_length {A} (f : A -> bool) (l : list A) :
  length (List.filter f l) + length (List.filter (fun x => negb (f x)) l) = length l.
Proof.
  induction l as [|x l IH]; [done|]. cbn [List.filter].
  destruct (f x); cbn [negb length]; lia.
Qed.

Lemma performs_rows_nonempty svc fuel input_level levels plant_name task :
  performs svc fuel input_level levels plant_name task -> fst task <> [].
Proof.
  intros (w & w' & Hrun). destruct task as [rows ok]. cbn [fst].
  destruct (fetch_taxonomy svc plant_name w) as [taxonomy w1] eqn:Hfetch.
  destruct (t_key taxonomy) as [key|] eqn:Hkey.
  - by destruct (process_plant_resolved_rows _ _ _ _ _ _ _ _ _ _ _ _ Hfetch Hkey Hrun)
      as (_ & Hne & _).
  - rewrite (process_plant_unresolved svc fuel input_level levels _ _ _ _ Hfetch Hkey)
      in Hrun.
    by injection Hrun as <- <- <-.
Qed.

Lemma lines_of_length svc fuel input_level levels output_format names tasks :
  Forall2 (performs svc fuel input_level levels) names tasks ->
  length names <= length (lines_of input_level levels output_format tasks).
Proof.
  induction 1 as [|name task names tasks Htask _ IH]; [done|].
  unfold lines_of in *. cbn [flat_map length]. rewrite length_app, length_map.
  apply performs_rows_nonempty in Htask.
  destruct (fst task); [done|]. cbn [length]. lia.
Qed.

(** Every completed run, in either mode, has committed the tasks of the
    names in some order, one locked section after the other. *)
Lemma completed_run_shape svc fuel env input_level levels parallel output_format
    w final s f :
  process_plant_file svc fuel env input_level levels parallel output_format w final ->
  status final = Completed s f ->
  exists names content order tasks,
    input_file env = Lines names
    /\ prepare_output (output_file env) output_format input_level levels = Return content
    /\ Permutation names order
    /\ (parallel = false -> order = names)
    /\ Forall2 (performs svc fuel input_level levels) order tasks
    /\ s = length (List.filter snd tasks)
    /\ f = length (List.filter (fun t => negb (snd t)) tasks)
    /\ file_after final
       = Present (content ++ lines_of input_level levels output_format tasks).
Proof.
  intros Hrun Hstatus.
  destruct Hrun as [Hin|names code Hin Hout|names content w' st' Hin Hout Hpar Hseq
                   |names content p Hin Hout Hpar Hpool Hdone];
    cbn [status file_after] in *; try discriminate Hstatus.
  - apply run_sequential_in_order in Hseq as (tasks & Htasks & ->).
    destruct (commit_all_closed input_level levels output_format tasks
                {| success_count := 0; failure_count := 0; outfile := content |})
      as (Hs & Hf & Ho).
    rewrite Hs, Hf in Hstatus. rewrite Ho. cbn in Hstatus. injection Hstatus as <- <-.
    by exists names, content, names, tasks.
  - apply pool_run_in_some_order in Hpool as (order & tasks & Hperm & Htasks & Hshared);
      [|done].
    rewrite Hshared in *.
    destruct (commit_all_closed input_level levels output_format tasks
                {| success_count := 0; failure_count := 0; outfile := content |})
      as (Hs & Hf & Ho).
    rewrite Hs, Hf in Hstatus. rewrite Ho. cbn in Hstatus. injection Hstatus as <- <-.
    exists names, content, order, tasks. repeat split; try done. congruence.
Qed.

(** X18.  The two counts of the summary add up to the number of names
    read from the input, in the sequential and in the pooled mode alike:
    every name is counted once, as a success or as a failure. *)
Theorem counts_add_up
    (svc : Service) (fuel : nat) (env : Env) (input_level : Rank) (levels : list Rank)
    (parallel : bool) (output_format : OutputFormat) (w : World) (final : Final)
    (s f : nat) :
  process_plant_file svc fuel env input_level levels parallel output_format w final ->
  status final = Completed s f ->
  exists names, input_file env = Lines names /\ s + f = length names.
Proof.
  intros Hrun Hstatus.
  destruct (completed_run_shape _ _ _ _ _ _ _ _ _ _ _ Hrun Hstatus)
    as (names & content & order & tasks & Hin & _ & Hperm & _ & Htasks & -> & -> & _).
  exists names. split; [done|].
  rewrite filter_split_length, (Permutation_length Hperm).
  symmetry. by eapply Forall2_length.
Qed.

(** X19.  A completed run leaves what the output file held before, or the
    header of a new file, and after it the lines of the names, batch by
    batch: the lines of one name stay together and in the order of its
    rows.  The batches follow the input order in the sequential mode and
    some order of the names in the pooled mode. *)
Theorem output_is_whole_batches
    (svc : Service) (fuel : nat) (env : Env) (input_level : Rank) (levels : list Rank)
    (parallel : bool) (output_format : OutputFormat) (w : World) (final : Final)
    (s f : nat) :
  process_plant_file svc fuel env input_level levels parallel output_format w final ->
  status final = Completed s f ->
  exists names content order tasks,
    input_file env = Lines names
    /\ prepare_output (output_file env) output_format input_level levels = Return content
    /\ (forall old, output_file env = Present old -> content = old)
    /\ Permutation names order
    /\ (parallel = false -> order = names)
    /\ Forall2 (performs svc fuel input_level levels) order tasks
    /\ file_after final
       = Present (content ++ lines_of input_level levels output_format tasks).
Proof.
  intros Hrun Hstatus.
  destruct (completed_run_shape _ _ _ _ _ _ _ _ _ _ _ Hrun Hstatus)
    as (names & content & order & tasks & Hin & Hout & Hperm & Hseq & Htasks & _ & _ & Hfile).
  exists names, content, order, tasks. repeat split; try done.
  intros old Hold. rewrite Hold in Hout. cbn in Hout. by injection Hout.
Qed.

Lemma lines_of_concat input_level levels output_format tasks :
  lines_of input_level levels output_format tasks
  = concat (map (fun t => map (write_row output_format input_level levels) (fst t)) tasks).
Proof. unfold lines_of. by rewrite flat_map_concat_map. Qed.

(** X20.  A completed run adds to the output, for the names of the input
    taken in some order, one batch of lines per name, and no batch is
    empty: every name, resolved or not, has at least one line of its own,
    the lines of the rows of its task. *)
Theorem every_name_adds_a_line
    (svc : Service) (fuel : nat) (env : Env) (input_level : Rank) (levels : list Rank)
    (parallel : bool) (output_format : OutputFormat) (w : World) (final : Final)
    (s f : nat) :
  process_plant_file svc fuel env input_level levels parallel output_format w final ->
  status final = Completed s f ->
  exists names content order batches,
    input_file env = Lines names
    /\ prepare_output (output_file env) output_format input_level levels = Return content
    /\ Permutation names order
    /\ file_after final = Present (content ++ concat batches)
    /\ Forall2 (fun name batch =>
                  batch <> []
                  /\ exists task,
                      performs svc fuel input_level levels name task
                      /\ batch = map (write_row output_format input_level levels)
                                   (fst task))
         order batches.
Proof.
  intros Hrun Hstatus.
  destruct (completed_run_shape _ _ _ _ _ _ _ _ _ _ _ Hrun Hstatus)
    as (names & content & order & tasks & Hin & Hout & Hperm & _ & Htasks & _ & _ & Hfile).
  exists names, content, order,
    (map (fun t => map (write_row output_format input_level levels) (fst t)) tasks).
  split; [done|]. split; [done|]. split; [done|].
  split; [by rewrite Hfile, lines_of_concat|].
  clear Hfile Hperm. induction Htasks as [|name task order tasks Htask _ IH];
    cbn [map]; constructor; [|exact IH].
  split.
  - pose proof (performs_rows_nonempty _ _ _ _ _ _ Htask) as Hne.
    by destruct (fst task).
  - by exists task.
Qed.

Lemma counts_add_up_witness :
  exists names, input_file demo_env = Lines names /\ 1 + 1 = length names.
Proof.
  apply (counts_add_up svc_demo 10 demo_env family [genus] true txt w0 demo_final_pool).
  - exact demo_pooled_run.
  - reflexivity.
Defined.

Lemma output_is_whole_batches_witness :
  exists names content order tasks,
    input_file demo_env = Lines names
    /\ prepare_output (output_file demo_env) txt family [genus] = Return content
    /\ (forall old, output_file demo_env = Present old -> content = old)
    /\ Permutation names order
    /\ (true = false -> order = names)
    /\ Forall2 (performs svc_demo 10 family [genus]) order tasks
    /\ file_after demo_final_pool
       = Present (content ++ lines_of family [genus] txt tasks).
Proof.
  apply (output_is_whole_batches svc_demo 10 demo_env family [genus] true txt w0
           demo_final_pool 1 1).
  - exact demo_pooled_run.
  - reflexivity.
Defined.

Lemma every_name_adds_a_line_witness :
  exists names content order batches,
    input_file demo_env = Lines names
    /\ prepare_output (output_file demo_env) txt family [genus] = Return content
    /\ Permutation names order
    /\ file_after demo_final_pool = Present (content ++ concat batches)
    /\ Forall2 (fun name batch =>
                  batch <> []
                  /\ exists task,
                      performs svc_demo 10 family [genus] name task
                      /\ batch = map (write_row txt family [genus]) (fst task))
         order batches.
Proof.
  apply (every_name_adds_a_line svc_demo 10 demo_env family [genus] true txt w0
           demo_final_pool 1 1).
  - exact demo_pooled_run.
  - reflexivity.
Defined.

(** ** The worker pool *)

Lemma max_workers_bounds (cpu_count : option nat) : 1 <= max_workers cpu_count <= 10.
Proof. unfold max_workers. destruct cpu_count as [[|n]|]; lia. Qed.

(** X22.  Against a service with fixed answers, the pooled mode can do
    whatever the sequential mode does: if a sequential run ends, in an exit
    or with a summary, there is a pooled run over the same input that ends
    as well. *)
Theorem pooled_run_exists
    (svc : Service) (fuel : nat) (env : Env) (input_level : Rank) (levels : list Rank)
    (output_format : OutputFormat) (w : World) (final_seq : Final) :
  stateless svc ->
  process_plant_file svc fuel env input_level levels false output_format w final_seq ->
  exists final_pool,
    process_plant_file svc fuel env input_level levels true output_format w final_pool.
Proof.
  intros Hstateless Hseq.
  destruct Hseq as [Hin|names code Hin Hout|names content w' st' Hin Hout _ Hrun
                   |names content p Hin Hout Hpar _ _]; [| | |discriminate Hpar].
  - eexists. by apply ppf_input_error.
  - eexists. by eapply ppf_output_error.
  - apply run_sequential_in_order in Hrun as (tasks & Htasks & _).
    destruct (pool_can_finish svc Hstateless fuel input_level levels output_format
                (max_workers (cpu_count env)) names
                ltac:(pose proof (max_workers_bounds (cpu_count env)); lia)
                tasks w {| success_count := 0; failure_count := 0; outfile := content |}
                Htasks) as (p & Hpool & Hdone & _).
    eexists. by eapply ppf_pooled.
Qed.

Lemma pooled_run_exists_witness :
  exists final_pool,
    process_plant_file svc_demo 10 demo_env family [genus] true txt w0 final_pool.
Proof.
  apply (pooled_run_exists svc_demo 10 demo_env family [genus] txt w0 demo_final_seq).
  - split; intros; reflexivity.
  - exact demo_sequential_run.
Defined.

(** X23.  Against a service with fixed answers, the rows and the success
    flag of a name do not depend on what was requested before: from any
    other history the same task comes back. *)
Theorem rows_do_not_depend_on_history
    (svc : Service) (fuel : nat) (input_level : Rank) (levels : list Rank)
    (plant_name : string) (w w1 w' : World)
    (rows : list (gmap Rank string)) (ok : bool) :
  stateless svc ->
  process_plant svc fuel plant_name input_level levels w = Some (rows, ok, w1) ->
  exists w1', process_plant svc fuel plant_name input_level levels w' = Some (rows, ok, w1').
Proof.
  intros Hstateless Hrun.
  pose proof (process_plant_stateless svc Hstateless fuel plant_name input_level levels
                w w') as Heq.
  rewrite Hrun in Heq.
  destruct (process_plant svc fuel plant_name input_level levels w') as [[task w1']|];
    [|discriminate Heq].
  injection Heq as <-. by exists w1'.
Qed.

Lemma rows_do_not_depend_on_history_witness :
  exists w1',
    process_plant svc_demo 10 "Rosaceae" family [genus]
      {| clock := 7; log := [Sleep 3] |}
    = Some (fst demo_task_rosaceae, true, w1').
Proof.
  apply (rows_do_not_depend_on_history svc_demo 10 family [genus] "Rosaceae" w0
           {| clock := 2; log := [GetMatch "Rosaceae"; GetChildren (Some 1%Z) limit 0] |}).
  - split; intros; reflexivity.
  - reflexivity.
Defined.
